(** * Single-flight token refresh in an axios response interceptor

    A shallow embedding of the interceptor service of the repository
    (the module that creates [axiosInstance], its request interceptor
    [setAxiosHeader], the token getters and the response interceptor that
    refreshes the access token on a 401 and replays queued requests).

    JavaScript runs the interceptor on one thread: a handler runs without
    interruption until it reaches an [await], and is resumed later by the
    settlement of the awaited promise.  The embedding follows that shape:
    the state holds the two module-level variables, the host objects the
    code touches and the promises created so far; an event is one thing the
    network does (a request answered, the refresh call answered), and
    [step] runs the code that this event wakes up, to its next suspension.

    What the embedding fixes:
    - the request interceptor of a call is run at the call: between the
      call and the microtask that runs the interceptor the service touches
      neither the store nor the descriptor;
    - the refresh POST goes through the global [Axios], which has no
      interceptors; its two outcomes are events;
    - [localStorage], [window.location] and [console] are host objects;
      the first two never raise; whether [console.log] raises is a
      property of the host, kept in the state, and is the one way the
      awaited chain can be rejected and the [catch] block entered;
    - line numbers are those of the service module in the sources. *)

From stdpp Require Import base strings list gmap.

(** ** Data *)

(** The part of an axios request descriptor the service reads or writes:
    the target and the [Authorization] header. *)
Record AxiosRequestConfig := mkConfig {
  url : string;
  Authorization : option string
}.

(** A response: its HTTP status and the string fields of its JSON body
    ([response?.data?.token] is [data r !! "token"]). *)
Record AxiosResponse := mkResponse {
  status : nat;
  data : gmap string string
}.

(** The error handed to the rejection handler: [error.config] and
    [error.response], the latter absent for a failure below HTTP. *)
Record AxiosError := mkError {
  error_config : AxiosRequestConfig;
  error_response : option AxiosResponse
}.

(** How a promise ends: [resolve(response)] or [reject(error)]. *)
Inductive Settlement :=
  | Resolve (response : AxiosResponse)
  | Reject (error : AxiosError).

(** [interface RetryQueueItem].  [resolve] and [reject] are the two
    continuations of one promise, the one built at lines 279-281; the item
    records which promise that is. *)
Record RetryQueueItem := mkItem {
  config : AxiosRequestConfig;
  promise : nat
}.

(** Who called [axiosInstance(...)], that is, what runs when the call's
    promise settles. *)
Inductive Origin :=
  | Application                  (* a caller outside the service *)
  | LeaderRetry (leader : nat)   (* line 254, inside the refresh chain *)
  | QueueReplay (follower : nat) (* line 262, with lines 263-264 attached *).

(** Where the promise of one [axiosInstance] call stands. *)
Inductive PromiseState :=
  | InFlight
      (* sent, the dispatcher has not answered *)
  | AwaitingRefresh (originalRequest : AxiosRequestConfig)
      (* its handler is suspended at the await of line 238 and the
         refresh POST is pending *)
  | AwaitingRetry (originalRequest : AxiosRequestConfig)
      (* same await; the refresh succeeded and the call of line 254 is
         pending *)
  | Queued
      (* its handler returned the promise of lines 279-281 *)
  | Settled (s : Settlement).

Record Call := mkCall {
  sent : AxiosRequestConfig;   (* the descriptor after the request interceptor *)
  origin : Origin;
  state : PromiseState
}.

Record State := mkState {
  isRefreshing : bool;
  refreshAndRetryQueue : list RetryQueueItem;
  localStorage : gmap string string;
  location_href : string;             (* window.location.href *)
  console_raises : bool;              (* the host's console.log raises *)
  console : list AxiosError;          (* what console.log has printed *)
  calls : list Call;                  (* every axiosInstance(...) so far *)
  refreshPosts : list string;         (* refreshToken of every POST to
                                         api/v1/auth/refreshtoken *)
  callbacks : list (nat * Settlement) (* every resolve/reject of a queue
                                         item invoked so far, by promise *)
}.

Definition set_isRefreshing (b : bool) (st : State) : State :=
  mkState b (refreshAndRetryQueue st) (localStorage st) (location_href st)
    (console_raises st) (console st) (calls st) (refreshPosts st) (callbacks st).

Definition set_queue (q : list RetryQueueItem) (st : State) : State :=
  mkState (isRefreshing st) q (localStorage st) (location_href st)
    (console_raises st) (console st) (calls st) (refreshPosts st) (callbacks st).

Definition set_localStorage (ls : gmap string string) (st : State) : State :=
  mkState (isRefreshing st) (refreshAndRetryQueue st) ls (location_href st)
    (console_raises st) (console st) (calls st) (refreshPosts st) (callbacks st).

Definition set_location_href (h : string) (st : State) : State :=
  mkState (isRefreshing st) (refreshAndRetryQueue st) (localStorage st) h
    (console_raises st) (console st) (calls st) (refreshPosts st) (callbacks st).

Definition set_console (c : list AxiosError) (st : State) : State :=
  mkState (isRefreshing st) (refreshAndRetryQueue st) (localStorage st)
    (location_href st) (console_raises st) c (calls st) (refreshPosts st)
    (callbacks st).

Definition set_calls (cs : list Call) (st : State) : State :=
  mkState (isRefreshing st) (refreshAndRetryQueue st) (localStorage st)
    (location_href st) (console_raises st) (console st) cs (refreshPosts st)
    (callbacks st).

Definition set_refreshPosts (ps : list string) (st : State) : State :=
  mkState (isRefreshing st) (refreshAndRetryQueue st) (localStorage st)
    (location_href st) (console_raises st) (console st) (calls st) ps
    (callbacks st).

Definition set_callbacks (cb : list (nat * Settlement)) (st : State) : State :=
  mkState (isRefreshing st) (refreshAndRetryQueue st) (localStorage st)
    (location_href st) (console_raises st) (console st) (calls st)
    (refreshPosts st) cb.

(** ** utilities/getToken and utilities/setAxiosHeader *)

(** [if (x) return x; return null]: an absent item and the empty string
    both give [null]. *)
Definition truthy (v : option string) : option string :=
  match v with
  | Some s => if decide (s = "") then None else Some s
  | None => None
  end.

Definition getToken (ls : gmap string string) : option string :=
  truthy (ls !! "token").

Definition getRefreshToken (ls : gmap string string) : option string :=
  truthy (ls !! "refreshToken").

Definition setAxiosHeader (ls : gmap string string)
    (c : AxiosRequestConfig) : AxiosRequestConfig :=
  match getToken ls with
  | Some token => mkConfig (url c) (Some ("Bearer " +:+ token))
  | None => c
  end.

(** [localStorage.setItem(k, v)] stores the string of [v]; an undefined
    [v] is stored as the text "undefined". *)
Definition setItem (k : string) (v : option string)
    (ls : gmap string string) : gmap string string :=
  <[k := default "undefined" v]> ls.

(** ** The service *)

(** [axiosInstance(config)]: the request interceptor (lines 212-217) puts
    the stored token on the descriptor, and the request is sent.  The new
    promise is the next entry of [calls]. *)
Definition axiosInstance (o : Origin) (c : AxiosRequestConfig)
    (st : State) : State :=
  set_calls (calls st ++ [mkCall (setAxiosHeader (localStorage st) c) o InFlight]) st.

(** The promise of call [id] moves to [s]; the call itself stays as sent. *)
Definition set_state (id : nat) (s : PromiseState) (st : State) : State :=
  match calls st !! id with
  | Some c => set_calls (<[id := mkCall (sent c) (origin c) s]> (calls st)) st
  | None => st
  end.

(** Where the promise of call [id] stands, if there is such a call. *)
Definition state_of (id : nat) (st : State) : option PromiseState :=
  state <$> calls st !! id.

(** [refreshAndRetryQueue.push({ config: originalRequest, resolve, reject })] *)
Definition push (item : RetryQueueItem) (st : State) : State :=
  set_queue (refreshAndRetryQueue st ++ [item]) st.

(** [error.response && error.response.status === 401] *)
Definition is401 (error : AxiosError) : bool :=
  match error_response error with
  | Some r => Nat.eqb (status r) 401
  | None => false
  end.

(** How control leaves the [try] block of lines 235-271: off its end, by
    the [return] of line 270, or by an exception. *)
Inductive Completion :=
  | Normal
  | Return (s : Settlement)
  | Throw.

(** The [catch] block (lines 272-274), run for an exception only, and then
    the [finally] block (lines 275-277), run always. *)
Definition leaveTry (c : Completion) (st : State) : State :=
  let st :=
    match c with
    | Throw => set_localStorage ∅ (set_queue [] st)
    | _ => st
    end in
  set_isRefreshing false st.

(** The rejection handler of the response interceptor (lines 230-284), from
    its entry to its first suspension or its return.  The result says where
    the promise of the call stands afterwards. *)
Definition onRejected (id : nat) (error : AxiosError)
    (st : State) : PromiseState * State :=
  let originalRequest := error_config error in
  if is401 error then
    if negb (isRefreshing st) then
      let st := set_isRefreshing true st in
      match getRefreshToken (localStorage st) with
      | Some refreshToken =>
          (* lines 238-247: the POST leaves; the handler waits *)
          (AwaitingRefresh originalRequest,
           set_refreshPosts (refreshPosts st ++ [refreshToken]) st)
      | None =>
          (* lines 268-270 *)
          let st := set_localStorage ∅ st in
          let st := set_location_href "/" st in
          (Settled (Reject error), leaveTry (Return (Reject error)) st)
      end
    else
      (* lines 279-281 *)
      (Queued, push (mkItem originalRequest id) st)
  else
    (* line 283 *)
    (Settled (Reject error), st).

(** Lines 261-265: every queued request is sent again, in the order of the
    array, with its [resolve] and [reject] attached. *)
Definition drain (st : State) : State :=
  foldl (fun st item => axiosInstance (QueueReplay (promise item)) (config item) st)
    st (refreshAndRetryQueue st).

(** The handler from the point where the awaited chain of lines 238-259
    has settled to its return.  [fulfilled] tells whether the chain was
    fulfilled, and the block goes on to the drain, or rejected, and the
    await raises.  Either way the block is left without a [return], and
    the handler goes on to lines 279-281. *)
Definition afterAwait (leader : nat) (originalRequest : AxiosRequestConfig)
    (fulfilled : bool) (st : State) : State :=
  let st :=
    if fulfilled then
      (* lines 261-266 *)
      leaveTry Normal (set_queue [] (drain st))
    else
      leaveTry Throw st in
  (* lines 279-281 *)
  set_state leader Queued (push (mkItem originalRequest leader) st).

(** Lines 256-259, the [.catch] of the chain.  The chain is fulfilled when
    this handler returns and rejected when it raises. *)
Definition onRefreshRejected (errorRefresh : AxiosError)
    (st : State) : bool * State :=
  if console_raises st then (false, st)
  else (true, set_localStorage ∅ (set_console (console st ++ [errorRefresh]) st)).

(** Lines 248-255, the [.then] of the chain. *)
Definition onRefreshFulfilled (leader : nat)
    (originalRequest : AxiosRequestConfig) (response : AxiosResponse)
    (st : State) : State :=
  let st := set_localStorage
              (setItem "token" (data response !! "token") (localStorage st)) st in
  let st := set_localStorage
              (setItem "refreshToken" (data response !! "refreshToken")
                 (localStorage st)) st in
  set_state leader (AwaitingRetry originalRequest)
    (axiosInstance (LeaderRetry leader) originalRequest st).

(** The promise of call [id] settles with [s]; whatever waits for it runs.
    A replay hands the settlement to the callbacks of its queue item, whose
    promise settles in turn; [fuel] bounds the length of such a chain. *)
Fixpoint settle (fuel : nat) (id : nat) (s : Settlement) (st : State) : State :=
  match fuel with
  | O => st
  | S fuel =>
      match calls st !! id with
      | None => st
      | Some c =>
          let st := set_state id (Settled s) st in
          match origin c with
          | Application => st
          | QueueReplay follower =>
              (* lines 263-264 *)
              let st := set_callbacks (callbacks st ++ [(follower, s)]) st in
              settle fuel follower s st
          | LeaderRetry leader =>
              match state_of leader st with
              | Some (AwaitingRetry originalRequest) =>
                  match s with
                  | Resolve _ => afterAwait leader originalRequest true st
                  | Reject e =>
                      let '(fulfilled, st) := onRefreshRejected e st in
                      afterAwait leader originalRequest fulfilled st
                  end
              | _ => st
              end
          end
      end
  end.

(** ** Events *)

Inductive Event :=
  | Request (c : AxiosRequestConfig)
      (* the application calls axiosInstance(c) *)
  | Response (id : nat) (r : AxiosResponse)
      (* the dispatcher answers call id with a response it accepts *)
  | Failure (id : nat) (r : option AxiosResponse)
      (* the dispatcher fails call id, with or without a response *)
  | RefreshResponse (leader : nat) (r : AxiosResponse)
      (* the refresh POST of that leader is answered *)
  | RefreshFailure (leader : nat) (e : AxiosError)
      (* the refresh POST of that leader fails *).

Definition step (ev : Event) (st : State) : State :=
  match ev with
  | Request c => axiosInstance Application c st
  | Response id r =>
      match state_of id st with
      | Some InFlight => settle (length (calls st)) id (Resolve r) st
      | _ => st
      end
  | Failure id r =>
      match calls st !! id with
      | Some (mkCall c _ InFlight) =>
          match onRejected id (mkError c r) st with
          | (Settled s, st) => settle (length (calls st)) id s st
          | (s, st) => set_state id s st
          end
      | _ => st
      end
  | RefreshResponse leader r =>
      match state_of leader st with
      | Some (AwaitingRefresh originalRequest) =>
          onRefreshFulfilled leader originalRequest r st
      | _ => st
      end
  | RefreshFailure leader e =>
      match state_of leader st with
      | Some (AwaitingRefresh originalRequest) =>
          let '(fulfilled, st) := onRefreshRejected e st in
          afterAwait leader originalRequest fulfilled st
      | _ => st
      end
  end.

Definition run (evs : list Event) (st : State) : State :=
  foldl (fun st ev => step ev st) st evs.

(** The module as loaded: no refresh in flight, an empty queue. *)
Definition initial (ls : gmap string string) : State :=
  mkState false [] ls "/app" false [] [] [] [].

(** ** Observations *)

(** What the dispatcher has been handed, in the order it was handed:
    who asked, and the descriptor that left. *)
Definition dispatched (st : State) : list (Origin * AxiosRequestConfig) :=
  (fun c => (origin c, sent c)) <$> calls st.

(** The call that line 262 makes for one queue item while the store is [ls]. *)
Definition replayCall (ls : gmap string string) (item : RetryQueueItem) : Call :=
  mkCall (setAxiosHeader ls (config item)) (QueueReplay (promise item)) InFlight.

(** The queue item that the handler of call [id] builds: [error.config] is
    the descriptor the call was sent with. *)
Definition itemFor (st : State) (id : nat) : option RetryQueueItem :=
  (fun p => mkItem p.2 id) <$> dispatched st !! id.

Definition itemsFor (st : State) (ids : list nat) : list RetryQueueItem :=
  omap (itemFor st) ids.

(** Failures with a response, one after the other. *)
Definition failures (fs : list (nat * AxiosResponse)) : list Event :=
  (fun f => Failure f.1 (Some f.2)) <$> fs.

(** ** Scenarios *)

Definition r200 : AxiosResponse := mkResponse 200 ∅.
Definition r401 : AxiosResponse := mkResponse 401 ∅.
Definition r500 : AxiosResponse := mkResponse 500 ∅.

(** A store holding an access token and a refresh token. *)
Definition tokens (t rt : string) : gmap string string :=
  <["token" := t]> (<["refreshToken" := rt]> ∅).

(** The body of a refresh answer. *)
Definition refreshed (t rt : string) : AxiosResponse := mkResponse 200 (tokens t rt).

Definition reqA : AxiosRequestConfig := mkConfig "/api/a" None.
Definition reqB : AxiosRequestConfig := mkConfig "/api/b" None.
Definition reqC : AxiosRequestConfig := mkConfig "/api/c" None.
Definition reqD : AxiosRequestConfig := mkConfig "/api/d" None.

(** Two requests in flight and nothing stored. *)
Definition twoInFlight_noTokens : State :=
  run [Request reqA; Request reqB] (initial ∅).

(** Three requests in flight, sent with token T1. *)
Definition threeInFlight : State :=
  run [Request reqA; Request reqB; Request reqC] (initial (tokens "T1" "R1")).

(** One request in flight, sent with token T1, and no refresh token. *)
Definition oneInFlight_noRefreshToken : State :=
  run [Request reqA] (initial (<["token" := "T1"]> ∅)).

(** The three requests have failed with 401: the first refreshes, the other
    two wait in the queue. *)
Definition refreshPending : State :=
  run (failures [(0, r401); (1, r401); (2, r401)]) threeInFlight.

(** The refresh has answered with T2 and the leader's request is out again,
    as call 3. *)
Definition retryPending : State :=
  step (RefreshResponse 0 (refreshed "T2" "R2")) refreshPending.

(** A fourth request leaves while the refresh is pending, as call 3. *)
Definition lateRequest : State :=
  step (Request reqD) refreshPending.

(** Four requests in flight, sent with token T1; then the first has failed
    with 401 and waits for the refresh, the others still in flight. *)
Definition fourInFlight : State :=
  run [Request reqA; Request reqB; Request reqC; Request reqD]
    (initial (tokens "T1" "R1")).

Definition leaderWaiting : State :=
  step (Failure 0 (Some r401)) fourInFlight.

(** The error of a refresh call that the server turned down. *)
Definition refreshError : AxiosError :=
  mkError (mkConfig "api/v1/auth/refreshtoken" None) (Some r500).

(** [refreshPending] once the rejection handler of the chain has logged
    that error and emptied the store: the state the drain starts from. *)
Definition refreshFailureLogged : State :=
  (onRefreshRejected refreshError refreshPending).2.

(** A state on a host whose console.log raises. *)
Definition raising (st : State) : State :=
  mkState (isRefreshing st) (refreshAndRetryQueue st) (localStorage st)
    (location_href st) true (console st) (calls st) (refreshPosts st)
    (callbacks st).

(** ** Bookkeeping of the callbacks

    For the promise of a queue item, three things are counted: its entries
    in the queue, the replays sent for it that have not settled, and the
    invocations of its callbacks. *)

Definition unsettled (s : PromiseState) : bool :=
  match s with Settled _ => false | _ => true end.

(** The handler of the call has not returned yet. *)
Definition busy (s : PromiseState) : bool :=
  match s with
  | InFlight | AwaitingRefresh _ | AwaitingRetry _ => true
  | _ => false
  end.

(** The promise that a replay still owes an answer to. *)
Definition owes (c : Call) : option nat :=
  match origin c with
  | QueueReplay follower => if unsettled (state c) then Some follower else None
  | _ => None
  end.

(** The promises in the queue, those owed an answer, those called back. *)
Definition tickets (q : list RetryQueueItem) (cs : list Call)
    (cb : list (nat * Settlement)) : list nat :=
  (promise <$> q) ++ omap owes cs ++ cb.*1.

(** No promise is counted twice; a promise that is in the queue or owed
    an answer is pending behind the queue; a promise that was called back
    belongs to a handler that has returned. *)
Definition Coherent (q : list RetryQueueItem) (cs : list Call)
    (cb : list (nat * Settlement)) : Prop :=
  NoDup (tickets q cs cb) ∧
  (∀ F, F ∈ (promise <$> q) ++ omap owes cs → state <$> cs !! F = Some Queued) ∧
  (∀ F, F ∈ cb.*1 → ∃ s, state <$> cs !! F = Some s ∧ busy s = false).

Definition Inv (st : State) : Prop :=
  Coherent (refreshAndRetryQueue st) (calls st) (callbacks st).

(** ** Bounds on the chains of replays *)

(** A call made by the service answers to a promise created before it. *)
Definition earlier (id : nat) (o : Origin) : Prop :=
  match o with
  | Application => True
  | LeaderRetry leader => leader < id
  | QueueReplay follower => follower < id
  end.

Definition Grounded (st : State) : Prop :=
  (∀ id p, dispatched st !! id = Some p → earlier id p.1) ∧
  Forall (fun item => promise item < length (calls st)) (refreshAndRetryQueue st).

(** ** A coordinator that never refreshes again *)

(** No handler is waiting for a refresh answer, and every request in
    flight was made by the application. *)
Definition idle (c : Call) : Prop :=
  match state c with
  | AwaitingRefresh _ => False
  | InFlight => origin c = Application
  | _ => True
  end.

(** The flag is up although nothing that could lower it is pending. *)
Definition Wedged (st : State) : Prop :=
  isRefreshing st = true ∧ Forall idle (calls st).

(** The refresh has answered and the leader's resubmission, call 3, fails
    with 401 while the flag is still up. *)
Definition wedged : State :=
  step (Failure 3 (Some r401)) retryPending.

(** ** The ways a leader's turn ends

    [LeaderExit st st'] holds when the event that takes [st] to [st'] runs
    a leader's handler to its return: at once when no refresh token is
    stored, or from the await when the refresh call fails, or when the
    leader's resubmitted request is answered or fails other than with a
    401.  The last three cover the catch block too, which runs when the
    rejection handler of lines 256-259 raises. *)
Inductive LeaderExit (st : State) : State → Prop :=
  | exit_missing_token id c o r :
      calls st !! id = Some (mkCall c o InFlight) →
      is401 (mkError c r) = true →
      isRefreshing st = false →
      getRefreshToken (localStorage st) = None →
      LeaderExit st (step (Failure id r) st)
  | exit_refresh_failed leader orig e :
      state_of leader st = Some (AwaitingRefresh orig) →
      LeaderExit st (step (RefreshFailure leader e) st)
  | exit_retry_answered id c leader orig r :
      calls st !! id = Some (mkCall c (LeaderRetry leader) InFlight) →
      state_of leader st = Some (AwaitingRetry orig) →
      LeaderExit st (step (Response id r) st)
  | exit_retry_failed id c leader orig r :
      calls st !! id = Some (mkCall c (LeaderRetry leader) InFlight) →
      state_of leader st = Some (AwaitingRetry orig) →
      is401 (mkError c r) = false →
      LeaderExit st (step (Failure id r) st).

(** ** More scenarios *)

(** A refresh answer whose body has no token fields, and one whose token
    is the empty string. *)
Definition refreshedNothing : AxiosResponse := mkResponse 200 ∅.
Definition refreshedEmpty : AxiosResponse := mkResponse 200 (tokens "" "R2").

(** ** Leaders *)

(** The handler of the call is suspended at the await of line 238. *)
Definition awaiting (s : PromiseState) : bool :=
  match s with
  | AwaitingRefresh _ | AwaitingRetry _ => true
  | _ => false
  end.

Definition suspended (c : Call) : option AxiosRequestConfig :=
  if awaiting (state c) then Some (sent c) else None.

(** The requests whose handler is suspended at the await: the leaders. *)
Definition leaders (st : State) : list AxiosRequestConfig :=
  omap suspended (calls st).

(** As many leaders as the flag says. *)
Definition OneLeader (st : State) : Prop :=
  length (leaders st) = if isRefreshing st then 1 else 0.

(** ** The handler of the article (the queue version in the same file)

    The response interceptor printed in the article, lines 92-154 of the
    file that also holds the service.  Its instance has no request
    interceptor; [refreshAccessToken] is not in the sources, so its two
    outcomes are events.  Promises, calls and queue items are those of the
    service. *)
Module Article.

Record State := mkState {
  isRefreshing : bool;
  refreshAndRetryQueue : list RetryQueueItem;
  calls : list Call;
  refreshCalls : nat;                 (* calls of refreshAccessToken() *)
  callbacks : list (nat * Settlement)
}.

Definition state_of (id : nat) (st : State) : option PromiseState :=
  state <$> calls st !! id.

Definition set_state (id : nat) (s : PromiseState) (st : State) : State :=
  match calls st !! id with
  | Some c =>
      mkState (isRefreshing st) (refreshAndRetryQueue st)
        (<[id := mkCall (sent c) (origin c) s]> (calls st))
        (refreshCalls st) (callbacks st)
  | None => st
  end.

Definition set_isRefreshing (b : bool) (st : State) : State :=
  mkState b (refreshAndRetryQueue st) (calls st) (refreshCalls st) (callbacks st).

Definition set_queue (q : list RetryQueueItem) (st : State) : State :=
  mkState (isRefreshing st) q (calls st) (refreshCalls st) (callbacks st).

Definition set_callbacks (cb : list (nat * Settlement)) (st : State) : State :=
  mkState (isRefreshing st) (refreshAndRetryQueue st) (calls st) (refreshCalls st) cb.

(** [axiosInstance(config)] and [axiosInstance.request(config)]: the
    descriptor leaves as it is. *)
Definition axiosInstance (o : Origin) (c : AxiosRequestConfig) (st : State) : State :=
  mkState (isRefreshing st) (refreshAndRetryQueue st)
    (calls st ++ [mkCall c o InFlight]) (refreshCalls st) (callbacks st).

(** Lines 146-148. *)
Definition push (item : RetryQueueItem) (st : State) : State :=
  set_queue (refreshAndRetryQueue st ++ [item]) st.

(** The handler (lines 110-153) to its first suspension or its return. *)
Definition onRejected (id : nat) (error : AxiosError)
    (st : State) : PromiseState * State :=
  let originalRequest := error_config error in
  if is401 error then
    if negb (isRefreshing st) then
      (* lines 115-118: refreshAccessToken() is called; the handler waits *)
      (AwaitingRefresh originalRequest,
       mkState true (refreshAndRetryQueue st) (calls st)
         (S (refreshCalls st)) (callbacks st))
    else
      (* lines 146-148 *)
      (Queued, push (mkItem originalRequest id) st)
  else
    (* line 152 *)
    (Settled (Reject error), st).

(** Lines 124-129. *)
Definition drain (st : State) : State :=
  foldl (fun st item => axiosInstance (QueueReplay (promise item)) (config item) st)
    st (refreshAndRetryQueue st).

(** The handler from a fulfilled await to its return: lines 121-135, then
    the finally of line 141.  The promise of the handler follows the call
    of line 135. *)
Definition onRefreshed (leader : nat) (originalRequest : AxiosRequestConfig)
    (newAccessToken : string) (st : State) : State :=
  (* line 121 writes the header of error.config, which is originalRequest *)
  let originalRequest :=
    mkConfig (url originalRequest) (Some ("Bearer " +:+ newAccessToken)) in
  let st := set_queue [] (drain st) in
  let st := axiosInstance (LeaderRetry leader) originalRequest st in
  let st := set_isRefreshing false st in
  set_state leader (AwaitingRetry originalRequest) st.

(** The promise of call [id] settles with [s].  The answer to a replay goes
    to the callbacks of its queue item (lines 127-128); the answer to the
    call of line 135 is the answer of the leader. *)
Fixpoint settle (fuel : nat) (id : nat) (s : Settlement) (st : State) : State :=
  match fuel with
  | O => st
  | S fuel =>
      match calls st !! id with
      | None => st
      | Some c =>
          let st := set_state id (Settled s) st in
          match origin c with
          | Application => st
          | QueueReplay follower =>
              settle fuel follower s
                (set_callbacks (callbacks st ++ [(follower, s)]) st)
          | LeaderRetry leader =>
              match state_of leader st with
              | Some (AwaitingRetry _) => settle fuel leader s st
              | _ => st
              end
          end
      end
  end.

(** The handler from a rejected await to its return: the catch block
    rethrows (line 139), the finally lowers the flag (line 141). *)
Definition onRefreshFailed (leader : nat) (refreshError : AxiosError)
    (st : State) : State :=
  let st := set_isRefreshing false st in
  settle (length (calls st)) leader (Reject refreshError) st.

Inductive Event :=
  | Request (c : AxiosRequestConfig)
  | Response (id : nat) (r : AxiosResponse)
  | Failure (id : nat) (r : option AxiosResponse)
  | Refreshed (leader : nat) (newAccessToken : string)
  | RefreshFailed (leader : nat) (refreshError : AxiosError).

Definition step (ev : Event) (st : State) : State :=
  match ev with
  | Request c => axiosInstance Application c st
  | Response id r =>
      match state_of id st with
      | Some InFlight => settle (length (calls st)) id (Resolve r) st
      | _ => st
      end
  | Failure id r =>
      match calls st !! id with
      | Some (mkCall c _ InFlight) =>
          match onRejected id (mkError c r) st with
          | (Settled s, st) => settle (length (calls st)) id s st
          | (s, st) => set_state id s st
          end
      | _ => st
      end
  | Refreshed leader newAccessToken =>
      match state_of leader st with
      | Some (AwaitingRefresh originalRequest) =>
          onRefreshed leader originalRequest newAccessToken st
      | _ => st
      end
  | RefreshFailed leader refreshError =>
      match state_of leader st with
      | Some (AwaitingRefresh _) => onRefreshFailed leader refreshError st
      | _ => st
      end
  end.

Definition run (evs : list Event) (st : State) : State :=
  foldl (fun st ev => step ev st) st evs.

Definition initial : State := mkState false [] [] 0 [].

Definition dispatched (st : State) : list (Origin * AxiosRequestConfig) :=
  (fun c => (origin c, sent c)) <$> calls st.

Definition failures (fs : list (nat * AxiosResponse)) : list Event :=
  (fun f => Failure f.1 (Some f.2)) <$> fs.

Definition itemsFor (st : State) (ids : list nat) : list RetryQueueItem :=
  omap (fun id => (fun p => mkItem p.2 id) <$> dispatched st !! id) ids.

End Article.

Definition reqA1 : AxiosRequestConfig := mkConfig "/api/a" (Some "Bearer T1").
Definition reqB1 : AxiosRequestConfig := mkConfig "/api/b" (Some "Bearer T1").
Definition reqC1 : AxiosRequestConfig := mkConfig "/api/c" (Some "Bearer T1").

(** The article's instance with three requests in flight; then all three
    have failed with 401; then the refresh has answered with T2. *)
Definition articleThree : Article.State :=
  Article.run [Article.Request reqA1; Article.Request reqB1; Article.Request reqC1]
    Article.initial.

Definition articlePending : Article.State :=
  Article.run (Article.failures [(0, r401); (1, r401); (2, r401)]) articleThree.

Definition articleRetry : Article.State :=
  Article.step (Article.Refreshed 0 "T2") articlePending.

(** ** The first handler of the article (no queue)

    The response interceptor of lines 63-85: on a 401 it refreshes and
    sends the request again.  It keeps no state of its own;
    [refreshAccessToken] is not in the sources, its outcomes are events. *)
Module Simple.

Record State := mkState {
  calls : list Call;
  refreshCalls : nat   (* calls of refreshAccessToken() *)
}.

Definition state_of (id : nat) (st : State) : option PromiseState :=
  state <$> calls st !! id.

Definition set_state (id : nat) (s : PromiseState) (st : State) : State :=
  match calls st !! id with
  | Some c =>
      mkState (<[id := mkCall (sent c) (origin c) s]> (calls st)) (refreshCalls st)
  | None => st
  end.

Definition axiosInstance (o : Origin) (c : AxiosRequestConfig) (st : State) : State :=
  mkState (calls st ++ [mkCall c o InFlight]) (refreshCalls st).

(** The handler (lines 69-84) to its await or its return. *)
Definition onRejected (error : AxiosError) (st : State) : PromiseState * State :=
  if is401 error then
    (* lines 72-73 *)
    (AwaitingRefresh (error_config error), mkState (calls st) (S (refreshCalls st)))
  else
    (* line 83 *)
    (Settled (Reject error), st).

(** Lines 75-77: the header is written and the request sent again; the
    promise of the handler follows that call. *)
Definition onRefreshed (id : nat) (originalRequest : AxiosRequestConfig)
    (newAccessToken : string) (st : State) : State :=
  let retried := mkConfig (url originalRequest) (Some ("Bearer " +:+ newAccessToken)) in
  set_state id (AwaitingRetry retried) (axiosInstance (LeaderRetry id) retried st).

Fixpoint settle (fuel : nat) (id : nat) (s : Settlement) (st : State) : State :=
  match fuel with
  | O => st
  | S fuel =>
      match calls st !! id with
      | None => st
      | Some c =>
          let st := set_state id (Settled s) st in
          match origin c with
          | LeaderRetry caller =>
              match state_of caller st with
              | Some (AwaitingRetry _) => settle fuel caller s st
              | _ => st
              end
          | _ => st
          end
      end
  end.

Inductive Event :=
  | Request (c : AxiosRequestConfig)
  | Response (id : nat) (r : AxiosResponse)
  | Failure (id : nat) (r : option AxiosResponse)
  | Refreshed (id : nat) (newAccessToken : string)
  | RefreshFailed (id : nat) (refreshError : AxiosError).

Definition step (ev : Event) (st : State) : State :=
  match ev with
  | Request c => axiosInstance Application c st
  | Response id r =>
      match state_of id st with
      | Some InFlight => settle (length (calls st)) id (Resolve r) st
      | _ => st
      end
  | Failure id r =>
      match calls st !! id with
      | Some (mkCall c _ InFlight) =>
          match onRejected (mkError c r) st with
          | (Settled s, st) => settle (length (calls st)) id s st
          | (s, st) => set_state id s st
          end
      | _ => st
      end
  | Refreshed id newAccessToken =>
      match state_of id st with
      | Some (AwaitingRefresh originalRequest) =>
          onRefreshed id originalRequest newAccessToken st
      | _ => st
      end
  | RefreshFailed id refreshError =>
      match state_of id st with
      | Some (AwaitingRefresh _) =>
          (* lines 78-80: rethrown *)
          settle (length (calls st)) id (Reject refreshError) st
      | _ => st
      end
  end.

Definition run (evs : list Event) (st : State) : State :=
  foldl (fun st ev => step ev st) st evs.

Definition initial : State := mkState [] 0.

Definition failures (fs : list (nat * AxiosResponse)) : list Event :=
  (fun f => Failure f.1 (Some f.2)) <$> fs.

End Simple.

Definition simpleThree : Simple.State :=
  Simple.run [Simple.Request (mkConfig "/api/a" (Some "Bearer T1"));
              Simple.Request (mkConfig "/api/b" (Some "Bearer T1"));
              Simple.Request (mkConfig "/api/c" (Some "Bearer T1"))]
    Simple.initial.

(** Request 0 has failed with 401 and its refresh has answered T2. *)
Definition simpleRetry : Simple.State :=
  Simple.run [Simple.Failure 0 (Some r401); Simple.Refreshed 0 "T2"] simpleThree.

(** ** Projections through the setters *)

Lemma set_state_isRefreshing id s st :
  isRefreshing (set_state id s st) = isRefreshing st.
Proof. unfold set_state. by destruct (calls st !! id). Qed.

Lemma set_state_queue id s st :
  refreshAndRetryQueue (set_state id s st) = refreshAndRetryQueue st.
Proof. unfold set_state. by destruct (calls st !! id). Qed.

Lemma set_state_localStorage id s st :
  localStorage (set_state id s st) = localStorage st.
Proof. unfold set_state. by destruct (calls st !! id). Qed.

Lemma set_state_location_href id s st :
  location_href (set_state id s st) = location_href st.
Proof. unfold set_state. by destruct (calls st !! id). Qed.

Lemma set_state_refreshPosts id s st :
  refreshPosts (set_state id s st) = refreshPosts st.
Proof. unfold set_state. by destruct (calls st !! id). Qed.

Lemma set_state_callbacks id s st :
  callbacks (set_state id s st) = callbacks st.
Proof. unfold set_state. by destruct (calls st !! id). Qed.

Lemma set_state_console_raises id s st :
  console_raises (set_state id s st) = console_raises st.
Proof. unfold set_state. by destruct (calls st !! id). Qed.

Lemma set_state_length id s st :
  length (calls (set_state id s st)) = length (calls st).
Proof.
  unfold set_state. destruct (calls st !! id); [|done].
  cbn. by rewrite length_insert.
Qed.

Lemma set_state_lookup_ne id j s st :
  id ≠ j → calls (set_state id s st) !! j = calls st !! j.
Proof.
  intros Hne. unfold set_state. destruct (calls st !! id); [|done].
  cbn. by rewrite list_lookup_insert_ne.
Qed.

Lemma set_state_lookup_eq id s st c :
  calls st !! id = Some c →
  calls (set_state id s st) !! id = Some (mkCall (sent c) (origin c) s).
Proof.
  intros Hc. unfold set_state. rewrite Hc. cbn.
  apply list_lookup_insert_eq. by eapply lookup_lt_Some.
Qed.

Lemma state_of_set_state_ne id j s st :
  id ≠ j → state_of j (set_state id s st) = state_of j st.
Proof. intros Hne. unfold state_of. by rewrite set_state_lookup_ne. Qed.

Lemma state_of_set_state_eq id s st :
  id < length (calls st) → state_of id (set_state id s st) = Some s.
Proof.
  intros Hlt. destruct (lookup_lt_is_Some_2 _ _ Hlt) as [c Hc].
  unfold state_of. by rewrite (set_state_lookup_eq _ _ _ _ Hc).
Qed.

Create Rewrite HintDb proj.
#[export] Hint Rewrite set_state_isRefreshing set_state_queue
  set_state_localStorage set_state_location_href set_state_refreshPosts
  set_state_callbacks set_state_console_raises set_state_length : proj.

(** ** A failure that is not a 401 *)

Lemma is401_status error r :
  error_response error = Some r → status r ≠ 401 → is401 error = false.
Proof.
  intros Hr Hs. unfold is401. rewrite Hr. by apply Nat.eqb_neq.
Qed.

Lemma is401_no_response error :
  error_response error = None → is401 error = false.
Proof. intros Hr. unfold is401. by rewrite Hr. Qed.

Lemma onRejected_not401 id error st :
  is401 error = false → onRejected id error st = (Settled (Reject error), st).
Proof. intros H. unfold onRejected. by rewrite H. Qed.

(** The step of a failed call made by the application, when the handler
    rejects at once: only the promise of that call changes. *)
Lemma step_Failure_application id c r st :
  calls st !! id = Some (mkCall c Application InFlight) →
  is401 (mkError c r) = false →
  step (Failure id r) st = set_state id (Settled (Reject (mkError c r))) st.
Proof.
  intros Hc H401. unfold step. rewrite Hc.
  rewrite (onRejected_not401 _ _ _ H401).
  destruct (length (calls st)) eqn:Hlen.
  - apply lookup_lt_Some in Hc. lia.
  - cbn [settle]. by rewrite Hc.
Qed.

(** ** A 401 while the flag is up, and a 401 that finds it down *)

Lemma step_Failure_follower id c o r st :
  calls st !! id = Some (mkCall c o InFlight) →
  isRefreshing st = true →
  is401 (mkError c r) = true →
  step (Failure id r) st = set_state id Queued (push (mkItem c id) st).
Proof.
  intros Hc Hflag H401. unfold step, onRejected. rewrite Hc, H401, Hflag. done.
Qed.

Lemma step_Failure_leader id c o r rt st :
  calls st !! id = Some (mkCall c o InFlight) →
  isRefreshing st = false →
  is401 (mkError c r) = true →
  getRefreshToken (localStorage st) = Some rt →
  step (Failure id r) st =
    set_state id (AwaitingRefresh c)
      (set_refreshPosts (refreshPosts st ++ [rt]) (set_isRefreshing true st)).
Proof.
  intros Hc Hflag H401 Hrt. unfold step, onRejected.
  rewrite Hc, H401, Hflag. cbn. rewrite Hrt. done.
Qed.

(** ** The drain *)

Lemma drain_fold q st :
  foldl (fun st item => axiosInstance (QueueReplay (promise item)) (config item) st) st q
  = set_calls (calls st ++ (replayCall (localStorage st) <$> q)) st.
Proof.
  revert st. induction q as [|item q IH]; intros st.
  - cbn. rewrite app_nil_r. by destruct st.
  - cbn [foldl]. rewrite IH. unfold axiosInstance, set_calls. cbn.
    by rewrite <- app_assoc.
Qed.

Lemma drain_eq st :
  drain st =
  set_calls (calls st ++ (replayCall (localStorage st) <$> refreshAndRetryQueue st)) st.
Proof. apply drain_fold. Qed.

(** ** The dispatch log *)

Lemma dispatched_set_state id s st :
  dispatched (set_state id s st) = dispatched st.
Proof.
  unfold dispatched, set_state. destruct (calls st !! id) as [c|] eqn:Hc; [|done].
  cbn. rewrite list_fmap_insert. cbn. apply list_insert_id.
  by rewrite list_lookup_fmap, Hc.
Qed.

Lemma dispatched_lookup st id c :
  calls st !! id = Some c → dispatched st !! id = Some (origin c, sent c).
Proof. intros Hc. unfold dispatched. by rewrite list_lookup_fmap, Hc. Qed.

Lemma itemFor_lookup st id c :
  calls st !! id = Some c → itemFor st id = Some (mkItem (sent c) id).
Proof. intros Hc. unfold itemFor. by rewrite (dispatched_lookup _ _ _ Hc). Qed.

Lemma itemsFor_ext st st' ids :
  dispatched st' = dispatched st → itemsFor st' ids = itemsFor st ids.
Proof. intros H. unfold itemsFor, itemFor. by rewrite H. Qed.

Lemma state_of_InFlight st id :
  state_of id st = Some InFlight →
  ∃ c o, calls st !! id = Some (mkCall c o InFlight).
Proof.
  unfold state_of. destruct (calls st !! id) as [[c o s]|]; [|done].
  cbn. intros [= ->]. eauto.
Qed.

(** Followers arriving one after the other while the flag is up: each is
    appended to the queue, and nothing else moves. *)
Lemma run_followers followers : ∀ st,
  isRefreshing st = true →
  Forall (fun f => status f.2 = 401) followers →
  NoDup followers.*1 →
  Forall (fun id => state_of id st = Some InFlight) followers.*1 →
  let st' := run (failures followers) st in
  isRefreshing st' = true ∧
  refreshPosts st' = refreshPosts st ∧
  localStorage st' = localStorage st ∧
  callbacks st' = callbacks st ∧
  dispatched st' = dispatched st ∧
  refreshAndRetryQueue st' = refreshAndRetryQueue st ++ itemsFor st followers.*1 ∧
  promise <$> itemsFor st followers.*1 = followers.*1 ∧
  Forall (fun id => state_of id st' = Some Queued) followers.*1 ∧
  (∀ j, j ∉ followers.*1 → calls st' !! j = calls st !! j).
Proof.
  induction followers as [|[id r] fs IH]; intros st Hflag H401 Hnd Hin.
  - cbn. rewrite app_nil_r. repeat split; auto.
  - cbn [fmap list_fmap fst snd] in *. fold (fmap (M:=list) (@fst nat AxiosResponse)) in *.
    apply Forall_cons in H401 as [Hr H401]. cbn in Hr.
    apply NoDup_cons in Hnd as [Hid Hnd].
    apply Forall_cons in Hin as [Hid_in Hin].
    destruct (state_of_InFlight _ _ Hid_in) as (c & o & Hc).
    assert (Hstep : step (Failure id (Some r)) st
                    = set_state id Queued (push (mkItem c id) st)).
    { apply (step_Failure_follower _ _ o); auto.
      unfold is401. cbn. rewrite Hr. done. }
    set (st1 := set_state id Queued (push (mkItem c id) st)) in *.
    assert (Hin1 : Forall (fun id => state_of id st1 = Some InFlight) fs.*1).
    { rewrite Forall_forall in Hin |- *. intros j Hj.
      unfold st1. rewrite state_of_set_state_ne; [by apply Hin|].
      intros ->. done. }
    assert (Hflag1 : isRefreshing st1 = true).
    { unfold st1. by rewrite set_state_isRefreshing. }
    destruct (IH st1 Hflag1 H401 Hnd Hin1)
      as (Hf & Hp & Hls & Hcb & Hd & Hq & Hpr & Hst & Hother).
    assert (Hd1 : dispatched st1 = dispatched st).
    { unfold st1. by rewrite dispatched_set_state. }
    change (run (failures ((id, r) :: fs)) st)
      with (run (failures fs) (step (Failure id (Some r)) st)).
    rewrite Hstep. fold st1.
    assert (Hitems : itemsFor st (id :: fs.*1) = mkItem c id :: itemsFor st fs.*1).
    { unfold itemsFor. simpl. by rewrite (itemFor_lookup _ _ _ Hc). }
    repeat split.
    + done.
    + rewrite Hp. unfold st1. by rewrite set_state_refreshPosts.
    + rewrite Hls. unfold st1. by rewrite set_state_localStorage.
    + rewrite Hcb. unfold st1. by rewrite set_state_callbacks.
    + by rewrite Hd.
    + rewrite Hq, Hitems, (itemsFor_ext _ _ _ Hd1). unfold st1.
      rewrite set_state_queue. cbn. by rewrite <- app_assoc.
    + rewrite Hitems. cbn. f_equal.
      by rewrite <- (itemsFor_ext _ _ _ Hd1).
    + apply Forall_cons. split; [|done].
      unfold state_of. rewrite Hother; [|done].
      unfold st1. erewrite set_state_lookup_eq; [done|]. exact Hc.
    + intros j Hj. apply not_elem_of_cons in Hj as [Hne Hj].
      rewrite Hother; [|done]. unfold st1.
      by rewrite set_state_lookup_ne.
Qed.

(** ** Single flight *)

Lemma failures_take k (fs : list (nat * AxiosResponse)) :
  (take k fs).*1 = take k fs.*1.
Proof. by rewrite fmap_take. Qed.

(** C1 (as amended).  While a refresh token is stored and no refresh is in
    flight, let a first request and then any number of others fail with
    401, none of them answered before.  After the first failure and after
    every further one, the refresh endpoint has been called exactly once
    (by the first), the flag is up, and the others that have failed so far
    sit in the queue, appended in their order of arrival; the first waits
    for the refresh and is not in the queue. *)
Theorem single_flight st leader r followers rt k :
  isRefreshing st = false →
  getRefreshToken (localStorage st) = Some rt →
  status r = 401 →
  Forall (fun f => status f.2 = 401) followers →
  NoDup (leader :: followers.*1) →
  Forall (fun id => state_of id st = Some InFlight) (leader :: followers.*1) →
  let arrived := take k followers in
  let st' := run (failures ((leader, r) :: arrived)) st in
  refreshPosts st' = refreshPosts st ++ [rt] ∧
  isRefreshing st' = true ∧
  state_of leader st' = (AwaitingRefresh ∘ config) <$> itemFor st leader ∧
  refreshAndRetryQueue st' = refreshAndRetryQueue st ++ itemsFor st arrived.*1 ∧
  promise <$> itemsFor st arrived.*1 = arrived.*1 ∧
  Forall (fun id => state_of id st' = Some Queued) arrived.*1.
Proof.
  intros Hflag Hrt Hr H401 Hnd Hin arrived st'.
  apply NoDup_cons in Hnd as [Hlead Hnd].
  apply Forall_cons in Hin as [Hlead_in Hin].
  destruct (state_of_InFlight _ _ Hlead_in) as (c & o & Hc).
  assert (Hstep : step (Failure leader (Some r)) st =
    set_state leader (AwaitingRefresh c)
      (set_refreshPosts (refreshPosts st ++ [rt]) (set_isRefreshing true st))).
  { apply (step_Failure_leader _ _ o); auto. unfold is401. cbn. by rewrite Hr. }
  set (st1 := set_state leader (AwaitingRefresh c)
      (set_refreshPosts (refreshPosts st ++ [rt]) (set_isRefreshing true st))) in *.
  assert (Hsub : arrived.*1 ⊆ followers.*1).
  { unfold arrived. rewrite failures_take. apply subseteq_take. }
  assert (Hlead' : leader ∉ arrived.*1) by (intros H; apply Hlead, Hsub, H).
  assert (Hflag1 : isRefreshing st1 = true).
  { unfold st1. by rewrite set_state_isRefreshing. }
  assert (H401' : Forall (fun f => status f.2 = 401) arrived).
  { by apply Forall_take. }
  assert (Hnd' : NoDup arrived.*1).
  { unfold arrived. rewrite failures_take.
    eapply sublist_NoDup; [exact Hnd|apply sublist_take]. }
  assert (Hin1 : Forall (fun id => state_of id st1 = Some InFlight) arrived.*1).
  { rewrite Forall_forall in Hin |- *. intros j Hj. unfold st1.
    rewrite state_of_set_state_ne; [by apply Hin, Hsub|]. by intros ->. }
  assert (Hd1 : dispatched st1 = dispatched st).
  { unfold st1. by rewrite dispatched_set_state. }
  destruct (run_followers arrived st1 Hflag1 H401' Hnd' Hin1)
    as (Hf & Hp & Hls & Hcb & Hd & Hq & Hpr & Hst & Hother).
  change st' with (run (failures arrived) (step (Failure leader (Some r)) st)).
  rewrite Hstep. fold st1.
  rewrite (itemsFor_ext _ _ _ Hd1) in Hq, Hpr.
  repeat split.
  - rewrite Hp. unfold st1. by rewrite set_state_refreshPosts.
  - done.
  - unfold state_of. rewrite (Hother _ Hlead'). unfold st1.
    rewrite (set_state_lookup_eq _ _ _ (mkCall c o InFlight)); [|exact Hc].
    by rewrite (itemFor_lookup _ _ _ Hc).
  - rewrite Hq. unfold st1. by rewrite set_state_queue.
  - done.
  - done.
Qed.

Lemma single_flight_witness :
  let st' := run (failures [(0, r401); (1, r401); (2, r401)]) threeInFlight in
  refreshPosts st' = ["R1"] ∧
  isRefreshing st' = true ∧
  state_of 0 st' = Some (AwaitingRefresh (mkConfig "/api/a" (Some "Bearer T1"))) ∧
  promise <$> refreshAndRetryQueue st' = [1; 2].
Proof.
  destruct (single_flight threeInFlight 0 r401 [(1, r401); (2, r401)] "R1" 2)
    as (H1 & H2 & H3 & H4 & H5 & H6).
  - reflexivity.
  - reflexivity.
  - reflexivity.
  - repeat constructor.
  - compute_done.
  - repeat constructor.
  - split; [exact H1|]. split; [exact H2|]. split; [exact H3|].
    etransitivity; [exact (f_equal (fmap (M:=list) promise) H4)|]. exact H5.
Defined.

(** C1 as stated fails when no refresh token is stored: two requests fail
    with 401 while no refresh is in flight, the refresh endpoint is never
    called and the second request is rejected, not queued. *)
Lemma single_flight_without_refresh_token :
  let st := twoInFlight_noTokens in
  let st' := run (failures [(0, r401); (1, r401)]) st in
  isRefreshing st = false ∧
  state_of 0 st = Some InFlight ∧ state_of 1 st = Some InFlight ∧
  refreshPosts st' = [] ∧
  refreshAndRetryQueue st' = [] ∧
  state_of 1 st' = Some (Settled (Reject (mkError reqB (Some r401)))).
Proof. vm_compute. repeat split. Qed.

(** ** The end of a leader's turn *)

Lemma afterAwait_isRefreshing leader orig fulfilled st :
  isRefreshing (afterAwait leader orig fulfilled st) = false.
Proof. unfold afterAwait. rewrite set_state_isRefreshing. by destruct fulfilled. Qed.

Lemma afterAwait_queue leader orig fulfilled st :
  refreshAndRetryQueue (afterAwait leader orig fulfilled st) = [mkItem orig leader].
Proof. unfold afterAwait. rewrite set_state_queue. by destruct fulfilled. Qed.

Lemma afterAwait_callbacks leader orig fulfilled st :
  callbacks (afterAwait leader orig fulfilled st) = callbacks st.
Proof.
  unfold afterAwait. rewrite set_state_callbacks.
  destruct fulfilled; [|done]. by rewrite drain_eq.
Qed.

Lemma afterAwait_refreshPosts leader orig fulfilled st :
  refreshPosts (afterAwait leader orig fulfilled st) = refreshPosts st.
Proof.
  unfold afterAwait. rewrite set_state_refreshPosts.
  destruct fulfilled; [|done]. by rewrite drain_eq.
Qed.

Lemma afterAwait_true_localStorage leader orig st :
  localStorage (afterAwait leader orig true st) = localStorage st.
Proof. unfold afterAwait. rewrite set_state_localStorage, drain_eq. done. Qed.

Lemma afterAwait_false_localStorage leader orig st :
  localStorage (afterAwait leader orig false st) = ∅.
Proof. unfold afterAwait. by rewrite set_state_localStorage. Qed.


Lemma afterAwait_false_length leader orig st :
  length (calls (afterAwait leader orig false st)) = length (calls st).
Proof. unfold afterAwait. by rewrite set_state_length. Qed.

Lemma afterAwait_true_lookup_ne leader orig st j :
  j ≠ leader →
  calls (afterAwait leader orig true st) !! j
  = (calls st ++ (replayCall (localStorage st) <$> refreshAndRetryQueue st)) !! j.
Proof.
  intros Hne. unfold afterAwait.
  rewrite set_state_lookup_ne by done. by rewrite drain_eq.
Qed.

Lemma afterAwait_false_lookup_ne leader orig st j :
  j ≠ leader → calls (afterAwait leader orig false st) !! j = calls st !! j.
Proof. intros Hne. unfold afterAwait. by rewrite set_state_lookup_ne. Qed.

Lemma afterAwait_state_of_leader leader orig fulfilled st :
  leader < length (calls st) →
  state_of leader (afterAwait leader orig fulfilled st) = Some Queued.
Proof.
  intros Hlt. unfold afterAwait. apply state_of_set_state_eq.
  destruct fulfilled; [|done]. rewrite drain_eq. cbn. rewrite length_app. lia.
Qed.

Lemma dispatched_afterAwait_true leader orig st :
  dispatched (afterAwait leader orig true st)
  = dispatched st ++
    ((fun item => (QueueReplay (promise item),
                   setAxiosHeader (localStorage st) (config item)))
       <$> refreshAndRetryQueue st).
Proof.
  unfold afterAwait. rewrite dispatched_set_state, drain_eq.
  unfold dispatched. cbn. rewrite fmap_app, <- list_fmap_compose. done.
Qed.

Lemma dispatched_afterAwait_false leader orig st :
  dispatched (afterAwait leader orig false st) = dispatched st.
Proof. unfold afterAwait. by rewrite dispatched_set_state. Qed.

(** ** What an answer to a resubmitted request wakes up *)

Lemma step_Response_retry id c leader orig r st :
  calls st !! id = Some (mkCall c (LeaderRetry leader) InFlight) →
  state_of leader st = Some (AwaitingRetry orig) →
  step (Response id r) st
  = afterAwait leader orig true (set_state id (Settled (Resolve r)) st).
Proof.
  intros Hc Hl.
  assert (Hne : id ≠ leader).
  { intros ->. unfold state_of in Hl. by rewrite Hc in Hl. }
  unfold step, state_of. rewrite Hc. cbn.
  destruct (length (calls st)) eqn:Hlen.
  { apply lookup_lt_Some in Hc. lia. }
  cbn [settle]. rewrite Hc. cbn.
  rewrite state_of_set_state_ne by done. by rewrite Hl.
Qed.

Lemma step_Failure_retry id c leader orig r st :
  calls st !! id = Some (mkCall c (LeaderRetry leader) InFlight) →
  state_of leader st = Some (AwaitingRetry orig) →
  is401 (mkError c r) = false →
  step (Failure id r) st
  = let st1 := set_state id (Settled (Reject (mkError c r))) st in
    afterAwait leader orig (onRefreshRejected (mkError c r) st1).1
      (onRefreshRejected (mkError c r) st1).2.
Proof.
  intros Hc Hl H401.
  assert (Hne : id ≠ leader).
  { intros ->. unfold state_of in Hl. by rewrite Hc in Hl. }
  unfold step. rewrite Hc, (onRejected_not401 _ _ _ H401).
  destruct (length (calls st)) eqn:Hlen.
  { apply lookup_lt_Some in Hc. lia. }
  cbn [settle]. rewrite Hc. cbn.
  rewrite state_of_set_state_ne by done. rewrite Hl.
  by destruct (onRefreshRejected _ _).
Qed.

Lemma step_RefreshFailure leader orig e st :
  state_of leader st = Some (AwaitingRefresh orig) →
  step (RefreshFailure leader e) st
  = afterAwait leader orig (onRefreshRejected e st).1 (onRefreshRejected e st).2.
Proof.
  intros Hl. unfold step. rewrite Hl. by destruct (onRefreshRejected _ _).
Qed.

Lemma step_RefreshResponse leader orig r st :
  state_of leader st = Some (AwaitingRefresh orig) →
  step (RefreshResponse leader r) st = onRefreshFulfilled leader orig r st.
Proof. intros Hl. unfold step. by rewrite Hl. Qed.

(** The answer to a replay goes to the callbacks of the queue item, and
    through them to the promise the application holds. *)
Lemma settle_replay id c follower cF sF s st :
  calls st !! id = Some (mkCall c (QueueReplay follower) InFlight) →
  calls st !! follower = Some (mkCall cF Application sF) →
  settle (length (calls st)) id s st
  = set_state follower (Settled s)
      (set_callbacks (callbacks st ++ [(follower, s)])
         (set_state id (Settled s) st)).
Proof.
  intros Hc HF.
  assert (Hne : id ≠ follower).
  { intros ->. rewrite Hc in HF. done. }
  assert (2 ≤ length (calls st)) as Hlen.
  { apply lookup_lt_Some in Hc, HF. lia. }
  destruct (length (calls st)) as [|[|n]]; [lia|lia|].
  cbn [settle]. rewrite Hc. cbn [origin].
  replace (calls (set_callbacks (callbacks (set_state id (Settled s) st) ++ [(follower, s)])
                    (set_state id (Settled s) st)) !! follower)
    with (Some (mkCall cF Application sF)).
  2:{ cbn. by rewrite set_state_lookup_ne. }
  cbn [origin]. by rewrite set_state_callbacks.
Qed.



(** ** Failures the coordinator does not handle *)

(** C7.  A failure whose response has a status other than 401 makes the
    handler return a rejection with the very error it was given and leave
    the state as it was.  For a call made by the application the whole step
    only records that rejection on the promise of the call: the flag, the
    queue, the store, the refresh calls and the requests sent are as
    before. *)
Theorem non_auth_passthrough id error r st :
  error_response error = Some r →
  status r ≠ 401 →
  onRejected id error st = (Settled (Reject error), st) ∧
  (calls st !! id = Some (mkCall (error_config error) Application InFlight) →
   let st' := step (Failure id (Some r)) st in
   state_of id st' = Some (Settled (Reject error)) ∧
   isRefreshing st' = isRefreshing st ∧
   refreshAndRetryQueue st' = refreshAndRetryQueue st ∧
   localStorage st' = localStorage st ∧
   location_href st' = location_href st ∧
   refreshPosts st' = refreshPosts st ∧
   callbacks st' = callbacks st ∧
   dispatched st' = dispatched st).
Proof.
  intros Hr Hs. pose proof (is401_status _ _ Hr Hs) as H401.
  split; [by apply onRejected_not401|].
  intros Hc st'. destruct error as [c r0]. cbn in Hr, Hc. subst r0.
  unfold st'. rewrite (step_Failure_application _ _ _ _ Hc H401).
  autorewrite with proj. rewrite dispatched_set_state.
  split; [|done].
  apply state_of_set_state_eq. by eapply lookup_lt_Some.
Qed.

Lemma non_auth_passthrough_witness :
  let error := mkError (mkConfig "/api/a" (Some "Bearer T1")) (Some r500) in
  let st' := step (Failure 0 (Some r500)) threeInFlight in
  onRejected 0 error threeInFlight = (Settled (Reject error), threeInFlight) ∧
  state_of 0 st' = Some (Settled (Reject error)) ∧
  isRefreshing st' = false ∧
  refreshAndRetryQueue st' = [] ∧
  localStorage st' = tokens "T1" "R1".
Proof.
  destruct (non_auth_passthrough 0
              (mkError (mkConfig "/api/a" (Some "Bearer T1")) (Some r500))
              r500 threeInFlight) as [H1 H2].
  - reflexivity.
  - vm_compute. lia.
  - destruct H2 as (H2 & H3 & H4 & H5 & _); [reflexivity|].
    split; [exact H1|]. split; [exact H2|]. split; [exact H3|].
    split; [exact H4|exact H5].
Defined.

(** C10.  A failure that carries no response at all is treated the same
    way, whatever caused it: the handler rejects with the error it was
    given and changes nothing, and for a call made by the application the
    step only records the rejection. *)
Theorem no_response_passthrough id error st :
  error_response error = None →
  onRejected id error st = (Settled (Reject error), st) ∧
  (calls st !! id = Some (mkCall (error_config error) Application InFlight) →
   let st' := step (Failure id None) st in
   state_of id st' = Some (Settled (Reject error)) ∧
   isRefreshing st' = isRefreshing st ∧
   refreshAndRetryQueue st' = refreshAndRetryQueue st ∧
   localStorage st' = localStorage st ∧
   location_href st' = location_href st ∧
   refreshPosts st' = refreshPosts st ∧
   callbacks st' = callbacks st ∧
   dispatched st' = dispatched st).
Proof.
  intros Hr. pose proof (is401_no_response _ Hr) as H401.
  split; [by apply onRejected_not401|].
  intros Hc st'. destruct error as [c r0]. cbn in Hr, Hc. subst r0.
  unfold st'. rewrite (step_Failure_application _ _ _ _ Hc H401).
  autorewrite with proj. rewrite dispatched_set_state.
  split; [|done].
  apply state_of_set_state_eq. by eapply lookup_lt_Some.
Qed.

Lemma no_response_passthrough_witness :
  let error := mkError (mkConfig "/api/d" (Some "Bearer T1")) None in
  let st' := step (Failure 3 None) lateRequest in
  onRejected 3 error lateRequest = (Settled (Reject error), lateRequest) ∧
  state_of 3 st' = Some (Settled (Reject error)) ∧
  isRefreshing st' = true ∧
  promise <$> refreshAndRetryQueue st' = [1; 2] ∧
  localStorage st' = tokens "T1" "R1".
Proof.
  destruct (no_response_passthrough 3
              (mkError (mkConfig "/api/d" (Some "Bearer T1")) None)
              lateRequest) as [H1 H2].
  - reflexivity.
  - destruct H2 as (H2 & H3 & H4 & H5 & _); [reflexivity|].
    split; [exact H1|]. split; [exact H2|]. split; [exact H3|].
    split; [exact (f_equal (fmap (M:=list) promise) H4)|exact H5].
Defined.

(** ** No refresh token *)

Lemma settle_application id c s st :
  calls st !! id = Some c →
  origin c = Application →
  settle (length (calls st)) id s st = set_state id (Settled s) st.
Proof.
  intros Hc Ho. destruct (length (calls st)) eqn:Hlen.
  { apply lookup_lt_Some in Hc. lia. }
  cbn [settle]. by rewrite Hc, Ho.
Qed.

(** C8.  When a 401 arrives while no refresh is in flight and no refresh
    token is stored, the handler empties the store, sets the location to
    "/", returns a rejection with the error it was given, and has lowered
    the flag again; it makes no call to the refresh endpoint and sends no
    request, and the queue is as before.  For a call made by the
    application the step leaves the promise of the call rejected with that
    error. *)
Theorem missing_refresh_token id error st :
  is401 error = true →
  isRefreshing st = false →
  getRefreshToken (localStorage st) = None →
  let res := onRejected id error st in
  res.1 = Settled (Reject error) ∧
  localStorage res.2 = ∅ ∧
  location_href res.2 = "/" ∧
  refreshPosts res.2 = refreshPosts st ∧
  dispatched res.2 = dispatched st ∧
  refreshAndRetryQueue res.2 = refreshAndRetryQueue st ∧
  isRefreshing res.2 = false ∧
  (calls st !! id = Some (mkCall (error_config error) Application InFlight) →
   let st' := step (Failure id (error_response error)) st in
   state_of id st' = Some (Settled (Reject error)) ∧
   localStorage st' = ∅ ∧
   location_href st' = "/" ∧
   refreshPosts st' = refreshPosts st ∧
   dispatched st' = dispatched st).
Proof.
  intros H401 Hflag Hrt res.
  assert (Hres : res = (Settled (Reject error),
            set_isRefreshing false
              (set_location_href "/" (set_localStorage ∅ (set_isRefreshing true st))))).
  { unfold res, onRejected. rewrite H401, Hflag. cbn. by rewrite Hrt. }
  rewrite Hres. cbn. repeat (split; [done|]).
  intros Hc. destruct error as [c r]. cbn in Hc |- *.
  unfold step. rewrite Hc. fold res. rewrite Hres.
  match goal with |- context [settle _ id _ ?s] => set (st1 := s) end.
  assert (Hc1 : calls st1 !! id = Some (mkCall c Application InFlight)) by exact Hc.
  rewrite (settle_application _ _ _ _ Hc1 eq_refl).
  autorewrite with proj. rewrite dispatched_set_state.
  split; [|done].
  apply state_of_set_state_eq. by eapply lookup_lt_Some.
Qed.

Lemma missing_refresh_token_witness :
  let error := mkError (mkConfig "/api/a" (Some "Bearer T1")) (Some r401) in
  let st' := step (Failure 0 (Some r401)) oneInFlight_noRefreshToken in
  (onRejected 0 error oneInFlight_noRefreshToken).1 = Settled (Reject error) ∧
  state_of 0 st' = Some (Settled (Reject error)) ∧
  localStorage st' = ∅ ∧
  location_href st' = "/" ∧
  refreshPosts st' = [].
Proof.
  destruct (missing_refresh_token 0
              (mkError (mkConfig "/api/a" (Some "Bearer T1")) (Some r401))
              oneInFlight_noRefreshToken)
    as (H1 & _ & _ & _ & _ & _ & _ & H2).
  - reflexivity.
  - reflexivity.
  - reflexivity.
  - destruct H2 as (H2 & H3 & H4 & H5 & _); [reflexivity|].
    split; [exact H1|]. split; [exact H2|]. split; [exact H3|].
    split; [exact H4|exact H5].
Defined.

(** ** The flag comes down *)

Lemma onRefreshRejected_isRefreshing e st :
  isRefreshing (onRefreshRejected e st).2 = isRefreshing st.
Proof. unfold onRefreshRejected. by destruct (console_raises st). Qed.

Lemma settle_isRefreshing_false fuel : ∀ id s st,
  isRefreshing st = false → isRefreshing (settle fuel id s st) = false.
Proof.
  induction fuel as [|fuel IH]; intros id s st Hflag; [done|].
  cbn [settle]. destruct (calls st !! id) as [c|]; [|done].
  destruct (origin c) as [|leader|follower].
  - by rewrite set_state_isRefreshing.
  - destruct (state_of leader _) as [[| |orig| |]|];
      try by rewrite set_state_isRefreshing.
    destruct s as [r|e].
    + apply afterAwait_isRefreshing.
    + destruct (onRefreshRejected e _). apply afterAwait_isRefreshing.
  - apply IH. cbn. by rewrite set_state_isRefreshing.
Qed.

(** A 401 that finds the flag down takes the leader's branch. *)
Lemma elects_leader id error st :
  isRefreshing st = false →
  is401 error = true →
  (onRejected id error st).1 ≠ Queued ∧
  refreshAndRetryQueue (onRejected id error st).2 = refreshAndRetryQueue st ∧
  ∀ rt, getRefreshToken (localStorage st) = Some rt →
    onRejected id error st
    = (AwaitingRefresh (error_config error),
       set_refreshPosts (refreshPosts st ++ [rt]) (set_isRefreshing true st)).
Proof.
  intros Hflag H401. unfold onRejected. rewrite H401, Hflag. cbn.
  destruct (getRefreshToken (localStorage st)) as [rt|]; cbn.
  - repeat split; [done|]. by intros ? [= ->].
  - repeat split; done.
Qed.

(** Where a leader's handler does return ([LeaderExit]: no refresh token,
    the refresh call failed, the resubmitted request answered or failed
    other than with a 401, the rejection handler raised and the catch block
    ran), the flag is down afterwards, and a 401 that arrives then is not
    queued: its handler takes the leader's branch, and calls the refresh
    endpoint when a refresh token is stored.  A 401 on the resubmitted
    request is not among these: that handler does not return. *)
Lemma flag_released st st' :
  LeaderExit st st' →
  isRefreshing st' = false ∧
  (∀ id error, is401 error = true →
    (onRejected id error st').1 ≠ Queued ∧
    refreshAndRetryQueue (onRejected id error st').2 = refreshAndRetryQueue st' ∧
    ∀ rt, getRefreshToken (localStorage st') = Some rt →
      onRejected id error st'
      = (AwaitingRefresh (error_config error),
         set_refreshPosts (refreshPosts st' ++ [rt]) (set_isRefreshing true st'))) ∧
  (∀ completion s, isRefreshing (leaveTry completion s) = false).
Proof.
  intros Hexit.
  assert (Hflag : isRefreshing st' = false).
  { destruct Hexit as [id c o r Hc H401 Hflag Hrt|leader orig e Hl
                      |id c leader orig r Hc Hl|id c leader orig r Hc Hl H401].
    - unfold step, onRejected. rewrite Hc, H401, Hflag. cbn. rewrite Hrt.
      by apply settle_isRefreshing_false.
    - rewrite (step_RefreshFailure _ _ _ _ Hl). apply afterAwait_isRefreshing.
    - rewrite (step_Response_retry _ _ _ _ _ _ Hc Hl). apply afterAwait_isRefreshing.
    - rewrite (step_Failure_retry _ _ _ _ _ _ Hc Hl H401). apply afterAwait_isRefreshing. }
  split; [done|]. split; [|done].
  intros id error H401. by apply elects_leader.
Qed.

Lemma flag_released_witness :
  let e := mkError (mkConfig "api/v1/auth/refreshtoken" None) (Some r500) in
  isRefreshing refreshPending = true ∧
  isRefreshing (step (RefreshFailure 0 e) refreshPending) = false ∧
  isRefreshing (step (RefreshFailure 0 e) (raising refreshPending)) = false.
Proof.
  split; [reflexivity|]. split.
  - apply (flag_released refreshPending).
    apply (exit_refresh_failed _ 0 (mkConfig "/api/a" (Some "Bearer T1"))).
    reflexivity.
  - apply (flag_released (raising refreshPending)).
    apply (exit_refresh_failed _ 0 (mkConfig "/api/a" (Some "Bearer T1"))).
    reflexivity.
Defined.

(** ** Order of the drain *)

(** C5.  While a refresh is in flight, let requests fail with 401 one after
    the other.  They are appended to the queue in that order, behind what
    was queued before; and when the leader reaches the drain, the requests
    handed to the dispatcher are the replays of the queue from its first
    entry to its last, so the followers leave in their order of arrival. *)
Theorem fifo_drain st leader orig followers :
  isRefreshing st = true →
  Forall (fun f => status f.2 = 401) followers →
  NoDup followers.*1 →
  Forall (fun id => state_of id st = Some InFlight) followers.*1 →
  let st1 := run (failures followers) st in
  let st2 := afterAwait leader orig true st1 in
  promise <$> refreshAndRetryQueue st1
  = (promise <$> refreshAndRetryQueue st) ++ followers.*1 ∧
  (dispatched st2).*1
  = (dispatched st).*1 ++
    (QueueReplay <$> (promise <$> refreshAndRetryQueue st) ++ followers.*1) ∧
  dispatched st2
  = dispatched st ++
    ((fun item => (QueueReplay (promise item),
                   setAxiosHeader (localStorage st) (config item)))
       <$> refreshAndRetryQueue st ++ itemsFor st followers.*1).
Proof.
  intros Hflag H401 Hnd Hin st1 st2.
  destruct (run_followers followers st Hflag H401 Hnd Hin)
    as (_ & _ & Hls & _ & Hd & Hq & Hpr & _ & _).
  fold st1 in Hls, Hd, Hq.
  assert (Hd2 : dispatched st2 = dispatched st ++
    ((fun item => (QueueReplay (promise item),
                   setAxiosHeader (localStorage st) (config item)))
       <$> refreshAndRetryQueue st ++ itemsFor st followers.*1)).
  { unfold st2. by rewrite dispatched_afterAwait_true, Hd, Hls, Hq. }
  split; [by rewrite Hq, fmap_app, Hpr|].
  split; [|done].
  rewrite Hd2, fmap_app. f_equal.
  rewrite !fmap_app. f_equal.
  - by rewrite <- !list_fmap_compose.
  - rewrite <- (f_equal (fmap (M:=list) QueueReplay) Hpr).
    by rewrite <- !list_fmap_compose.
Qed.

Lemma fifo_drain_witness :
  let orig := mkConfig "/api/a" (Some "Bearer T1") in
  let st1 := run (failures [(3, r401); (1, r401); (2, r401)]) leaderWaiting in
  let st2 := afterAwait 0 orig true st1 in
  promise <$> refreshAndRetryQueue st1 = [3; 1; 2] ∧
  (dispatched st2).*1
  = [Application; Application; Application; Application;
     QueueReplay 3; QueueReplay 1; QueueReplay 2].
Proof.
  destruct (fifo_drain leaderWaiting 0 (mkConfig "/api/a" (Some "Bearer T1"))
              [(3, r401); (1, r401); (2, r401)]) as (H1 & H2 & _).
  - reflexivity.
  - repeat constructor.
  - compute_done.
  - repeat constructor.
  - split; [exact H1|exact H2].
Defined.

(** ** The header of a replayed request *)

Lemma setAxiosHeader_url ls c : url (setAxiosHeader ls c) = url c.
Proof. unfold setAxiosHeader. by destruct (getToken ls). Qed.

Lemma setAxiosHeader_Some ls c token :
  getToken ls = Some token →
  setAxiosHeader ls c = mkConfig (url c) (Some ("Bearer " +:+ token)).
Proof. intros H. unfold setAxiosHeader. by rewrite H. Qed.

Lemma setAxiosHeader_None ls c : getToken ls = None → setAxiosHeader ls c = c.
Proof. intros H. unfold setAxiosHeader. by rewrite H. Qed.

Lemma getToken_empty : getToken ∅ = None.
Proof. reflexivity. Qed.

Lemma truthy_Some s : s ≠ "" → truthy (Some s) = Some s.
Proof. intros Hs. unfold truthy. by destruct (decide (s = "")). Qed.

Lemma drain_dispatch_lookup st leader orig i item :
  refreshAndRetryQueue st !! i = Some item →
  dispatched (afterAwait leader orig true st) !! (length (calls st) + i)
  = Some (QueueReplay (promise item),
          setAxiosHeader (localStorage st) (config item)).
Proof.
  intros Hi. rewrite dispatched_afterAwait_true.
  replace (length (calls st)) with (length (dispatched st))
    by (unfold dispatched; apply length_fmap).
  rewrite lookup_app_r by lia.
  replace (length (dispatched st) + i - length (dispatched st)) with i by lia.
  by rewrite list_lookup_fmap, Hi.
Qed.

(** The state right after the [.then] of the refresh chain has run. *)
Lemma onRefreshFulfilled_spec leader orig r st :
  leader < length (calls st) →
  let st1 := onRefreshFulfilled leader orig r st in
  localStorage st1
  = setItem "refreshToken" (data r !! "refreshToken")
      (setItem "token" (data r !! "token") (localStorage st)) ∧
  calls st1 !! length (calls st)
  = Some (mkCall (setAxiosHeader (localStorage st1) orig) (LeaderRetry leader) InFlight) ∧
  state_of leader st1 = Some (AwaitingRetry orig) ∧
  refreshAndRetryQueue st1 = refreshAndRetryQueue st ∧
  length (calls st1) = S (length (calls st)).
Proof.
  intros Hlt st1. unfold st1, onRefreshFulfilled.
  autorewrite with proj. cbn.
  split; [done|]. split; [|split; [|split]].
  - rewrite set_state_lookup_ne by lia. cbn.
    rewrite lookup_app_r by lia. by rewrite Nat.sub_diag.
  - apply state_of_set_state_eq. cbn. rewrite length_app. lia.
  - done.
  - rewrite length_app. cbn. lia.
Qed.

Lemma getToken_after_refresh r token ls :
  data r !! "token" = Some token → token ≠ "" →
  getToken (setItem "refreshToken" (data r !! "refreshToken")
              (setItem "token" (data r !! "token") ls)) = Some token.
Proof.
  intros Hd Hne. unfold getToken, setItem.
  rewrite lookup_insert_ne by done. rewrite lookup_insert_eq, Hd. cbn.
  by apply truthy_Some.
Qed.

(** C9 (as amended).  A follower taken from the queue is sent again through
    the request interceptor, which writes the header only when the store
    holds a non-empty access token at that moment.  So when the refresh
    answers with a non-empty token and the leader's own resubmission is
    answered, every replay carries Bearer followed by the new token,
    whatever header it was queued with; and when the refresh call fails
    (and is logged), the store is emptied before the drain and every replay
    leaves with the descriptor it was queued with, old header included. *)
Theorem replay_carries_stored_token st leader orig i item :
  state_of leader st = Some (AwaitingRefresh orig) →
  refreshAndRetryQueue st !! i = Some item →
  (∀ r r' token,
     data r !! "token" = Some token → token ≠ "" →
     let st1 := step (RefreshResponse leader r) st in
     let st2 := step (Response (length (calls st)) r') st1 in
     getToken (localStorage st1) = Some token ∧
     dispatched st2 !! (S (length (calls st)) + i)
     = Some (QueueReplay (promise item),
             mkConfig (url (config item)) (Some ("Bearer " +:+ token)))) ∧
  (∀ e,
     console_raises st = false →
     let st1 := step (RefreshFailure leader e) st in
     getToken (localStorage st1) = None ∧
     dispatched st1 !! (length (calls st) + i)
     = Some (QueueReplay (promise item), config item)).
Proof.
  intros Hl Hi.
  assert (Hlt : leader < length (calls st)).
  { unfold state_of in Hl. destruct (calls st !! leader) eqn:Hc; [|done].
    by eapply lookup_lt_Some. }
  split.
  - intros r r' token Hd Hne st1 st2.
    unfold st2, st1. rewrite (step_RefreshResponse _ _ _ _ Hl).
    destruct (onRefreshFulfilled_spec leader orig r st Hlt)
      as (Hls & Hretry & Hlead & Hq & Hlen).
    set (s1 := onRefreshFulfilled leader orig r st) in *.
    assert (Htok : getToken (localStorage s1) = Some token).
    { rewrite Hls. by apply getToken_after_refresh. }
    split; [done|].
    rewrite (step_Response_retry _ _ _ _ _ _ Hretry Hlead).
    assert (Hi2 : refreshAndRetryQueue
                    (set_state (length (calls st)) (Settled (Resolve r')) s1) !! i
                  = Some item).
    { by rewrite set_state_queue, Hq. }
    pose proof (drain_dispatch_lookup _ leader orig i item Hi2) as Hd2.
    rewrite set_state_length, set_state_localStorage, Hlen in Hd2.
    rewrite Hd2. by rewrite (setAxiosHeader_Some _ _ _ Htok).
  - intros e Hcons st1. unfold st1.
    rewrite (step_RefreshFailure _ _ _ _ Hl).
    unfold onRefreshRejected. rewrite Hcons. cbn [fst snd].
    rewrite afterAwait_true_localStorage. cbn.
    split; [done|].
    match goal with |- context [afterAwait _ _ true ?s] => set (s1 := s) end.
    pose proof (drain_dispatch_lookup s1 leader orig i item Hi) as Hd1.
    change (length (calls s1)) with (length (calls st)) in Hd1.
    rewrite Hd1. cbn. by rewrite setAxiosHeader_None.
Qed.

Lemma replay_carries_stored_token_witness :
  let st1 := step (RefreshResponse 0 (refreshed "T2" "R2")) refreshPending in
  let st2 := step (Response 3 r200) st1 in
  refreshAndRetryQueue refreshPending !! 0
  = Some (mkItem (mkConfig "/api/b" (Some "Bearer T1")) 1) ∧
  getToken (localStorage st1) = Some "T2" ∧
  dispatched st2 !! 4
  = Some (QueueReplay 1, mkConfig "/api/b" (Some "Bearer T2")).
Proof.
  destruct (replay_carries_stored_token refreshPending 0
              (mkConfig "/api/a" (Some "Bearer T1")) 0
              (mkItem (mkConfig "/api/b" (Some "Bearer T1")) 1)) as [H1 _].
  - reflexivity.
  - reflexivity.
  - destruct (H1 (refreshed "T2" "R2") r200 "T2") as [H2 H3].
    + reflexivity.
    + discriminate.
    + split; [reflexivity|]. split; [exact H2|exact H3].
Defined.

(** C9 as stated fails when the store holds no access token at the drain.
    The refresh call fails: the store is emptied, and the replay of the
    queued request leaves with the header it was queued with, Bearer T1.
    The same happens after a refresh that stored T2 when the leader's own
    resubmission fails with a 500. *)
Lemma replay_with_stale_token :
  let e := mkError (mkConfig "api/v1/auth/refreshtoken" None) (Some r500) in
  let failed := step (RefreshFailure 0 e) refreshPending in
  let retryFailed := step (Failure 3 (Some r500)) retryPending in
  refreshAndRetryQueue refreshPending !! 0
  = Some (mkItem (mkConfig "/api/b" (Some "Bearer T1")) 1) ∧
  getToken (localStorage failed) = None ∧
  dispatched failed !! 3
  = Some (QueueReplay 1, mkConfig "/api/b" (Some "Bearer T1")) ∧
  getToken (localStorage retryPending) = Some "T2" ∧
  getToken (localStorage retryFailed) = None ∧
  dispatched retryFailed !! 4
  = Some (QueueReplay 1, mkConfig "/api/b" (Some "Bearer T1")).
Proof. vm_compute. repeat split. Qed.

(** ** Every callback at most once *)

Section omap_insert.
Context {A B : Type} (f : A → option B).

Lemma omap_insert_same (l : list A) i x y :
  l !! i = Some x → f y = f x → omap f (<[i:=y]> l) = omap f l.
Proof.
  revert i. induction l as [|a l IH]; intros [|i] Hi Hf; simplify_eq/=.
  - by rewrite Hf.
  - by rewrite (IH i).
Qed.

Lemma omap_insert_drop (l : list A) i x y b :
  l !! i = Some x → f x = Some b → f y = None →
  omap f l ≡ₚ b :: omap f (<[i:=y]> l).
Proof.
  revert i. induction l as [|a l IH]; intros [|i] Hi Hx Hy; simplify_eq/=.
  - by rewrite Hx, Hy.
  - destruct (f a) as [b'|].
    + rewrite (IH i Hi Hx Hy). apply Permutation_swap.
    + by apply IH.
Qed.
End omap_insert.

Lemma busy_unsettled s : busy s = true → unsettled s = true.
Proof. by destruct s. Qed.

Lemma owes_restate c s s' :
  unsettled s = true → unsettled s' = true →
  owes (mkCall (sent c) (origin c) s') = owes (mkCall (sent c) (origin c) s).
Proof. intros H1 H2. unfold owes. cbn. by rewrite H1, H2. Qed.

Lemma state_lookup_insert (cs : list Call) id c F :
  id < length cs →
  state <$> <[id:=c]> cs !! F
  = if decide (F = id) then Some (state c) else state <$> cs !! F.
Proof.
  intros Hlt. destruct (decide (F = id)) as [->|Hne].
  - by rewrite list_lookup_insert_eq.
  - by rewrite list_lookup_insert_ne.
Qed.

Lemma omap_owes_replays ls (q : list RetryQueueItem) :
  omap owes (replayCall ls <$> q) = promise <$> q.
Proof. induction q as [|item q IH]; [done|]. cbn. by rewrite IH. Qed.

Lemma Coherent_not_busy q cs cb id c :
  Coherent q cs cb → cs !! id = Some c → busy (state c) = true →
  id ∉ tickets q cs cb.
Proof.
  intros (_ & H2 & H3) Hc Hb Hin. unfold tickets in Hin.
  rewrite app_assoc in Hin. apply elem_of_app in Hin as [Hin|Hin].
  - specialize (H2 _ Hin). rewrite Hc in H2. cbn in H2.
    destruct (state c); simplify_eq/=.
  - destruct (H3 _ Hin) as (s & Hs & Hbs). rewrite Hc in Hs. cbn in Hs.
    injection Hs as Hs. rewrite <- Hs in Hbs. congruence.
Qed.

(** A busy call changes to another busy state. *)
Lemma Coherent_rebusy q cs cb id c s' :
  cs !! id = Some c → busy (state c) = true → busy s' = true →
  Coherent q cs cb →
  Coherent q (<[id := mkCall (sent c) (origin c) s']> cs) cb.
Proof.
  intros Hc Hb Hb' Hco.
  pose proof (Coherent_not_busy _ _ _ _ _ Hco Hc Hb) as Hid.
  destruct Hco as (H1 & H2 & H3).
  assert (Hlt : id < length cs) by (by eapply lookup_lt_Some).
  assert (Ho : omap owes (<[id := mkCall (sent c) (origin c) s']> cs) = omap owes cs).
  { apply (omap_insert_same _ _ _ c); [done|]. destruct c as [x o s]. cbn in *.
    apply owes_restate with (c := mkCall x o s); by apply busy_unsettled. }
  unfold Coherent, tickets. rewrite Ho. split; [done|]. split.
  - intros F HF. rewrite state_lookup_insert by done.
    destruct (decide (F = id)) as [->|]; [|by apply H2].
    destruct Hid. unfold tickets. rewrite app_assoc. apply elem_of_app. by left.
  - intros F HF. rewrite state_lookup_insert by done.
    destruct (decide (F = id)) as [->|]; [|by apply H3].
    destruct Hid. unfold tickets. rewrite app_assoc. apply elem_of_app. by right.
Qed.

(** A busy call is pushed on the queue and its handler returns the
    pending promise. *)
Lemma Coherent_park q cs cb id c x :
  cs !! id = Some c → busy (state c) = true →
  Coherent q cs cb →
  Coherent (q ++ [mkItem x id]) (<[id := mkCall (sent c) (origin c) Queued]> cs) cb.
Proof.
  intros Hc Hb Hco.
  pose proof (Coherent_not_busy _ _ _ _ _ Hco Hc Hb) as Hid.
  destruct Hco as (H1 & H2 & H3).
  assert (Hlt : id < length cs) by (by eapply lookup_lt_Some).
  assert (Ho : omap owes (<[id := mkCall (sent c) (origin c) Queued]> cs) = omap owes cs).
  { apply (omap_insert_same _ _ _ c); [done|]. destruct c as [x' o s]. cbn in *.
    apply owes_restate with (c := mkCall x' o s); [by apply busy_unsettled|done]. }
  unfold Coherent, tickets. rewrite Ho, fmap_app. cbn. split; [|split].
  - assert (Hp : ((promise <$> q) ++ [id]) ++ omap owes cs ++ cb.*1
                 ≡ₚ id :: tickets q cs cb).
    { unfold tickets. rewrite <- app_assoc. cbn.
      by rewrite <- Permutation_middle. }
    rewrite Hp. by apply NoDup_cons.
  - intros F HF. rewrite state_lookup_insert by done.
    destruct (decide (F = id)) as [->|Hne]; [done|]. apply H2.
    rewrite <- app_assoc in HF. cbn in HF.
    apply elem_of_app in HF as [HF|HF]; [apply elem_of_app; by left|].
    apply elem_of_cons in HF as [->|HF]; [done|]. apply elem_of_app. by right.
  - intros F HF. rewrite state_lookup_insert by done.
    destruct (decide (F = id)) as [->|]; [|by apply H3].
    destruct Hid. unfold tickets. rewrite app_assoc. apply elem_of_app. by right.
Qed.

(** A call is sent that owes nobody an answer. *)
Lemma Coherent_send q cs cb c :
  owes c = None → Coherent q cs cb → Coherent q (cs ++ [c]) cb.
Proof.
  intros Ho (H1 & H2 & H3). unfold Coherent, tickets.
  rewrite omap_app. cbn. rewrite Ho, app_nil_r. split; [done|]. split.
  - intros F HF. specialize (H2 _ HF).
    rewrite lookup_app_l; [done|].
    destruct (cs !! F) eqn:E; [by eapply lookup_lt_Some|done].
  - intros F HF. destruct (H3 _ HF) as (s & Hs & Hb). exists s. split; [|done].
    rewrite lookup_app_l; [done|].
    destruct (cs !! F) eqn:E; [by eapply lookup_lt_Some|done].
Qed.

(** The drain: every entry of the queue becomes a replay. *)
Lemma Coherent_drain ls q cs cb :
  Coherent q cs cb → Coherent [] (cs ++ (replayCall ls <$> q)) cb.
Proof.
  intros (H1 & H2 & H3). unfold Coherent, tickets.
  rewrite omap_app, omap_owes_replays. cbn. split; [|split].
  - assert (Hp : (omap owes cs ++ (promise <$> q)) ++ cb.*1 ≡ₚ tickets q cs cb).
    { unfold tickets. rewrite app_assoc. f_equiv. apply Permutation_app_comm. }
    by rewrite Hp.
  - intros F HF.
    assert (HF' : F ∈ (promise <$> q) ++ omap owes cs).
    { apply elem_of_app. apply elem_of_app in HF. tauto. }
    specialize (H2 _ HF').
    rewrite lookup_app_l; [done|].
    destruct (cs !! F) eqn:E; [by eapply lookup_lt_Some|done].
  - intros F HF. destruct (H3 _ HF) as (s & Hs & Hb). exists s. split; [|done].
    rewrite lookup_app_l; [done|].
    destruct (cs !! F) eqn:E; [by eapply lookup_lt_Some|done].
Qed.

(** The catch block: the queue is dropped. *)
Lemma Coherent_drop q cs cb : Coherent q cs cb → Coherent [] cs cb.
Proof.
  intros (H1 & H2 & H3). unfold Coherent, tickets in *. cbn. split; [|split].
  - by apply NoDup_app in H1 as (_ & _ & H1).
  - intros F HF. apply H2. apply elem_of_app. by right.
  - done.
Qed.

(** One promise settles. *)
Lemma Coherent_settle q cs cb id c s :
  cs !! id = Some c → unsettled (state c) = true →
  id ∉ (promise <$> q) ++ omap owes cs →
  Coherent q cs cb →
  let cs' := <[id := mkCall (sent c) (origin c) (Settled s)]> cs in
  match origin c with
  | QueueReplay follower =>
      Coherent q cs' (cb ++ [(follower, s)]) ∧
      (follower ∉ (promise <$> q) ++ omap owes cs') ∧
      state <$> cs' !! follower = Some Queued
  | _ => Coherent q cs' cb
  end.
Proof.
  intros Hc Hu Hid (H1 & H2 & H3) cs'.
  assert (Hlt : id < length cs) by (by eapply lookup_lt_Some).
  assert (Hstate : ∀ F, F ≠ id → state <$> cs' !! F = (state <$> cs !! F)).
  { intros F HF. unfold cs'. rewrite state_lookup_insert by done.
    by destruct (decide (F = id)). }
  assert (Hsame : owes c = None → Coherent q cs' cb).
  { intros Ho.
    assert (Ho' : omap owes cs' = omap owes cs).
    { apply (omap_insert_same _ _ _ c); [done|]. rewrite Ho.
      unfold owes. cbn. by destruct (origin c). }
    unfold Coherent, tickets. rewrite Ho'. split; [done|]. split.
    - intros F HF. rewrite Hstate; [by apply H2|]. by intros ->.
    - intros F HF. destruct (decide (F = id)) as [->|Hne].
      + exists (Settled s). split; [|done]. unfold cs'.
        by rewrite list_lookup_insert_eq.
      + rewrite Hstate by done. by apply H3. }
  destruct (origin c) as [|leader|follower] eqn:Eo.
  - apply Hsame. unfold owes. by rewrite Eo.
  - apply Hsame. unfold owes. by rewrite Eo.
  - assert (Ho : owes c = Some follower) by (unfold owes; by rewrite Eo, Hu).
    assert (Hp : omap owes cs ≡ₚ follower :: omap owes cs').
    { apply (omap_insert_drop _ _ _ c); [done|done|]. unfold owes. cbn. by rewrite ?Eo. }
    assert (HF : follower ∈ (promise <$> q) ++ omap owes cs).
    { apply elem_of_app. right. rewrite Hp. by left. }
    assert (Hfne : follower ≠ id) by (by intros ->).
    assert (Hsub : ∀ F, F ∈ (promise <$> q) ++ omap owes cs' →
                        F ∈ (promise <$> q) ++ omap owes cs).
    { intros F HF'. apply elem_of_app. apply elem_of_app in HF' as [?|?]; [by left|].
      right. rewrite Hp. by right. }
    assert (Hperm : tickets q cs cb
                    ≡ₚ follower :: ((promise <$> q) ++ omap owes cs') ++ cb.*1).
    { unfold tickets. rewrite Hp. cbn. rewrite <- Permutation_middle.
      by rewrite app_assoc. }
    rewrite Hperm in H1. apply NoDup_cons in H1 as [Hnot H1].
    split; [|split].
    + unfold Coherent, tickets. rewrite fmap_app. cbn. split; [|split].
      * assert (Hp' : (promise <$> q) ++ omap owes cs' ++ cb.*1 ++ [follower]
                      ≡ₚ follower :: ((promise <$> q) ++ omap owes cs') ++ cb.*1).
        { rewrite !app_assoc. by rewrite <- Permutation_cons_append. }
        rewrite Hp'. by apply NoDup_cons.
      * intros F HF'. rewrite Hstate; [by apply H2, Hsub|].
        intros ->. by apply Hid, Hsub.
      * intros F HF'. apply elem_of_app in HF' as [HF'|HF'].
        -- destruct (decide (F = id)) as [->|Hne].
           ++ exists (Settled s). split; [|done]. unfold cs'.
              by rewrite list_lookup_insert_eq.
           ++ rewrite Hstate by done. by apply H3.
        -- apply list_elem_of_singleton in HF' as ->.
           exists Queued. split; [|done]. rewrite Hstate by done. by apply H2.
    + intros Hin. apply Hnot. apply elem_of_app. by left.
    + rewrite Hstate by done. by apply H2.
Qed.

Lemma Inv_rebusy st id c s' :
  calls st !! id = Some c → busy (state c) = true → busy s' = true →
  Inv st → Inv (set_state id s' st).
Proof.
  intros Hc Hb Hb' HI. unfold Inv, set_state. rewrite Hc. cbn.
  by apply Coherent_rebusy.
Qed.

Lemma Inv_park st id c x :
  calls st !! id = Some c → busy (state c) = true →
  Inv st → Inv (set_state id Queued (push (mkItem x id) st)).
Proof.
  intros Hc Hb HI. unfold Inv, set_state, push. cbn. rewrite Hc. cbn.
  by apply Coherent_park.
Qed.

Lemma Inv_afterAwait leader orig fulfilled st c :
  calls st !! leader = Some c → busy (state c) = true →
  Inv st → Inv (afterAwait leader orig fulfilled st).
Proof.
  intros Hc Hb HI. unfold afterAwait. destruct fulfilled.
  - apply (Inv_park _ _ c); [|done|].
    + rewrite drain_eq. cbn. rewrite lookup_app_l; [done|].
      by eapply lookup_lt_Some.
    + rewrite drain_eq. unfold Inv. cbn. by apply Coherent_drain.
  - apply (Inv_park _ _ c); [done|done|].
    unfold Inv. cbn. by apply (Coherent_drop (refreshAndRetryQueue st)).
Qed.

(** A promise that is neither in the queue nor owed an answer settles,
    and with it the promises its answer is handed on to. *)
Lemma Inv_settle fuel : ∀ id s st,
  Inv st →
  (∀ c, calls st !! id = Some c → unsettled (state c) = true) →
  id ∉ (promise <$> refreshAndRetryQueue st) ++ omap owes (calls st) →
  Inv (settle fuel id s st).
Proof.
  induction fuel as [|fuel IH]; intros id s st HI Hu Hid; [done|].
  cbn [settle]. destruct (calls st !! id) as [c|] eqn:Hc; [|done].
  specialize (Hu c eq_refl).
  pose proof (Coherent_settle _ _ _ _ _ s Hc Hu Hid HI) as Hs. cbn zeta in Hs.
  assert (Hcalls : calls (set_state id (Settled s) st)
                   = <[id := mkCall (sent c) (origin c) (Settled s)]> (calls st)).
  { unfold set_state. by rewrite Hc. }
  destruct (origin c) as [|leader|follower] eqn:Eo.
  - unfold Inv. rewrite Hcalls, set_state_queue, set_state_callbacks. by rewrite ?Eo.
  - assert (HI1 : Inv (set_state id (Settled s) st)).
    { unfold Inv. rewrite Hcalls, set_state_queue, set_state_callbacks. by rewrite ?Eo. }
    unfold state_of.
    destruct (calls (set_state id (Settled s) st) !! leader) as [cl|] eqn:Hl; [|done].
    cbn. destruct (state cl) as [| |orig| |] eqn:Es; try done.
    destruct s as [r|e].
    + apply (Inv_afterAwait _ _ _ _ cl); [done| by rewrite Es |done].
    + unfold onRefreshRejected.
      destruct (console_raises _);
        (apply (Inv_afterAwait _ _ _ _ cl); [done| by rewrite Es |done]).
  - destruct Hs as (Hco & Hnot & Hq).
    apply IH.
    + unfold Inv. cbn. by rewrite Hcalls, set_state_queue, set_state_callbacks.
    + cbn. rewrite Hcalls. intros cF HcF. rewrite HcF in Hq. cbn in Hq.
      injection Hq as Hq. by rewrite Hq.
    + cbn. by rewrite Hcalls, set_state_queue.
Qed.

Lemma Inv_InFlight st id c o :
  Inv st → calls st !! id = Some (mkCall c o InFlight) →
  id ∉ (promise <$> refreshAndRetryQueue st) ++ omap owes (calls st).
Proof.
  intros HI Hc Hin.
  pose proof (Coherent_not_busy _ _ _ _ _ HI Hc eq_refl) as Hnot.
  apply Hnot. unfold tickets. rewrite app_assoc. apply elem_of_app. by left.
Qed.

(** The bookkeeping is kept by every event. *)
Lemma Inv_step ev st : Inv st → Inv (step ev st).
Proof.
  intros HI. destruct ev as [c|id r|id r|leader r|leader e]; cbn [step].
  - unfold Inv, axiosInstance. cbn. by apply Coherent_send.
  - unfold state_of. destruct (calls st !! id) as [[c o []]|] eqn:Hc; try done.
    cbn. apply Inv_settle; [done| |by eapply Inv_InFlight].
    intros c' Hc'. by simplify_eq.
  - destruct (calls st !! id) as [[c o []]|] eqn:Hc; try done.
    unfold onRejected. destruct (is401 _).
    + destruct (isRefreshing st) eqn:Hflag; cbn [negb].
      * by apply (Inv_park _ _ (mkCall c o InFlight)).
      * cbn. destruct (getRefreshToken (localStorage st)).
        -- by apply (Inv_rebusy _ _ (mkCall c o InFlight)).
        -- apply Inv_settle; [done| |by eapply Inv_InFlight].
           intros c' Hc'. cbn in Hc'. by simplify_eq.
    + apply Inv_settle; [done| |by eapply Inv_InFlight].
      intros c' Hc'. by simplify_eq.
  - unfold state_of. destruct (calls st !! leader) as [[c o []]|] eqn:Hc; try done.
    cbn. unfold onRefreshFulfilled.
    apply (Inv_rebusy _ _ (mkCall c o (AwaitingRefresh originalRequest))); [|done|done|].
    + cbn. rewrite lookup_app_l; [done|]. by eapply lookup_lt_Some.
    + unfold Inv, axiosInstance. cbn. by apply Coherent_send.
  - unfold state_of. destruct (calls st !! leader) as [[c o []]|] eqn:Hc; try done.
    cbn. unfold onRefreshRejected.
    destruct (console_raises st);
      by apply (Inv_afterAwait _ _ _ _ (mkCall c o (AwaitingRefresh originalRequest))).
Qed.

Lemma Inv_initial ls : Inv (initial ls).
Proof.
  unfold Inv, Coherent, tickets. cbn. split; [constructor|].
  split; intros F HF; by apply elem_of_nil in HF.
Qed.

Lemma Inv_run evs : ∀ st, Inv st → Inv (run evs st).
Proof.
  induction evs as [|ev evs IH]; intros st HI; [done|].
  cbn. apply IH. by apply Inv_step.
Qed.


(** ** The bound of [settle] *)

Lemma dispatched_length st : length (dispatched st) = length (calls st).
Proof. unfold dispatched. apply length_fmap. Qed.

(** Past the number of the call, more fuel changes nothing. *)
Lemma settle_enough n : ∀ m id s st,
  (∀ id p, dispatched st !! id = Some p → earlier id p.1) →
  id < n → id < m →
  settle n id s st = settle m id s st.
Proof.
  induction n as [|n IH]; intros m id s st Hwf Hn Hm; [lia|].
  destruct m as [|m]; [lia|]. cbn [settle].
  destruct (calls st !! id) as [c|] eqn:Hc; [|done].
  destruct (origin c) as [|leader|follower] eqn:Eo; [done|done|].
  pose proof (Hwf id _ (dispatched_lookup _ _ _ Hc)) as He.
  cbn in He. rewrite Eo in He. cbn in He.
  apply IH; [|lia|lia].
  intros j p Hj. apply Hwf.
  change (dispatched (set_state id (Settled s) st) !! j = Some p) in Hj.
  by rewrite dispatched_set_state in Hj.
Qed.

Lemma Grounded_set_state id s st : Grounded st → Grounded (set_state id s st).
Proof.
  intros [H1 H2]. split.
  - by rewrite dispatched_set_state.
  - by rewrite set_state_queue, set_state_length.
Qed.

Lemma Grounded_send o c st :
  earlier (length (calls st)) o → Grounded st → Grounded (axiosInstance o c st).
Proof.
  intros Ho [H1 H2]. split.
  - intros id p. unfold dispatched, axiosInstance. cbn. rewrite fmap_app. cbn.
    intros Hp. apply lookup_app_Some in Hp as [Hp|[Hlen Hp]]; [by apply H1|].
    rewrite length_fmap in Hlen, Hp.
    destruct (id - length (calls st)) as [|k] eqn:Ek; [|done].
    cbn in Hp. injection Hp as <-. cbn.
    replace id with (length (calls st)) by lia. done.
  - cbn. rewrite length_app. cbn. eapply Forall_impl; [exact H2|].
    cbn. intros item Hitem. lia.
Qed.

Lemma Grounded_push x id st :
  id < length (calls st) → Grounded st → Grounded (push (mkItem x id) st).
Proof.
  intros Hid [H1 H2]. split; [done|]. cbn. apply Forall_app. split; [done|].
  by repeat constructor.
Qed.

Lemma Grounded_drain st : Grounded st → Grounded (set_queue [] (drain st)).
Proof.
  intros [H1 H2]. rewrite drain_eq. split; [|by cbn].
  intros id p. unfold dispatched. cbn. rewrite fmap_app.
  intros Hp. apply lookup_app_Some in Hp as [Hp|[Hlen Hp]]; [by apply H1|].
  rewrite length_fmap in Hlen, Hp.
  rewrite <- list_fmap_compose in Hp.
  apply list_lookup_fmap_Some in Hp as (item & -> & Hitem). cbn.
  rewrite Forall_forall in H2.
  assert (promise item < length (calls st)); [|lia].
  apply H2. by eapply list_elem_of_lookup_2.
Qed.

Lemma Grounded_afterAwait leader orig fulfilled st :
  leader < length (calls st) → Grounded st →
  Grounded (afterAwait leader orig fulfilled st).
Proof.
  intros Hl HG. unfold afterAwait. apply Grounded_set_state.
  destruct fulfilled.
  - apply Grounded_push.
    + rewrite drain_eq. cbn. rewrite length_app. lia.
    + by apply Grounded_drain in HG.
  - apply Grounded_push; [done|]. destruct HG as [H1 H2]. by split.
Qed.

Lemma Grounded_settle fuel : ∀ id s st,
  Grounded st → Grounded (settle fuel id s st).
Proof.
  induction fuel as [|fuel IH]; intros id s st HG; [done|].
  cbn [settle]. destruct (calls st !! id) as [c|]; [|done].
  pose proof (Grounded_set_state id (Settled s) st HG) as HG1.
  destruct (origin c) as [|leader|follower]; [done| |].
  - destruct (state_of leader _) as [[| |orig| |]|] eqn:Hl; try done.
    assert (Hlt : leader < length (calls (set_state id (Settled s) st))).
    { unfold state_of in Hl. destruct (calls _ !! leader) eqn:E; [|done].
      by eapply lookup_lt_Some. }
    destruct s as [r|e]; [by apply Grounded_afterAwait|].
    unfold onRefreshRejected. destruct (console_raises _).
    + by apply Grounded_afterAwait.
    + apply Grounded_afterAwait; [done|]. destruct HG1 as [H1 H2]. by split.
  - apply IH. destruct HG1 as [H1 H2]. by split.
Qed.

Lemma Grounded_step ev st : Grounded st → Grounded (step ev st).
Proof.
  intros HG. destruct ev as [c|id r|id r|leader r|leader e]; cbn [step].
  - by apply Grounded_send.
  - destruct (state_of id st) as [[]|]; try done. by apply Grounded_settle.
  - destruct (calls st !! id) as [[c o []]|] eqn:Hc; try done.
    assert (Hlt : id < length (calls st)) by (by eapply lookup_lt_Some).
    unfold onRejected. destruct (is401 _); [|by apply Grounded_settle].
    destruct (isRefreshing st); cbn [negb].
    + by apply Grounded_set_state, Grounded_push.
    + cbn. destruct (getRefreshToken (localStorage st)).
      * apply Grounded_set_state. destruct HG as [H1 H2]. by split.
      * apply Grounded_settle. destruct HG as [H1 H2]. by split.
  - destruct (state_of leader st) as [[| orig | | |]|] eqn:Hl; try done.
    assert (Hlt : leader < length (calls st)).
    { unfold state_of in Hl. destruct (calls _ !! leader) eqn:E; [|done].
      by eapply lookup_lt_Some. }
    unfold onRefreshFulfilled. apply Grounded_set_state.
    apply Grounded_send; [done|]. destruct HG as [H1 H2]. by split.
  - destruct (state_of leader st) as [[| orig | | |]|] eqn:Hl; try done.
    assert (Hlt : leader < length (calls st)).
    { unfold state_of in Hl. destruct (calls _ !! leader) eqn:E; [|done].
      by eapply lookup_lt_Some. }
    unfold onRefreshRejected. destruct (console_raises st).
    + by apply Grounded_afterAwait.
    + apply Grounded_afterAwait; [done|]. destruct HG as [H1 H2]. by split.
Qed.

Lemma Grounded_run evs : ∀ st, Grounded st → Grounded (run evs st).
Proof.
  induction evs as [|ev evs IH]; intros st HG; [done|].
  cbn. apply IH. by apply Grounded_step.
Qed.

Lemma Grounded_initial ls : Grounded (initial ls).
Proof. split; [|by constructor]. intros id p Hp. by destruct id. Qed.

(** In a state the service can reach, the bound that [step] gives to
    [settle] is never the reason a settlement stops: any larger bound
    gives the same state. *)
Theorem settle_fuel_suffices evs ls id s n :
  let st := run evs (initial ls) in
  id < length (calls st) →
  length (calls st) ≤ n →
  settle n id s st = settle (length (calls st)) id s st.
Proof.
  intros st Hid Hn.
  destruct (Grounded_run evs _ (Grounded_initial ls)) as [Hwf _].
  apply settle_enough; [done|lia|lia].
Qed.

(** ** Wedged for good *)

Lemma Wedged_set_state id s st :
  (∀ c, calls st !! id = Some c → idle (mkCall (sent c) (origin c) s)) →
  Wedged st → Wedged (set_state id s st).
Proof.
  intros Hs [Hflag Hall]. split; [by rewrite set_state_isRefreshing|].
  unfold set_state. destruct (calls st !! id) as [c|] eqn:Hc; [|done].
  cbn. apply Forall_insert; [done|]. by apply Hs.
Qed.

(** Once wedged, no event lowers the flag, calls the refresh endpoint,
    invokes a callback or takes anything out of the queue. *)
Lemma Wedged_step ev st :
  Wedged st →
  let st' := step ev st in
  Wedged st' ∧
  callbacks st' = callbacks st ∧
  refreshPosts st' = refreshPosts st ∧
  refreshAndRetryQueue st `prefix_of` refreshAndRetryQueue st' ∧
  (∀ id, state_of id st = Some Queued → state_of id st' = Some Queued).
Proof.
  intros HW st'. pose proof HW as [Hflag Hall].
  assert (Hsettle : ∀ id c s,
    calls st !! id = Some (mkCall c Application InFlight) →
    let st1 := settle (length (calls st)) id s st in
    Wedged st1 ∧ callbacks st1 = callbacks st ∧ refreshPosts st1 = refreshPosts st ∧
    refreshAndRetryQueue st `prefix_of` refreshAndRetryQueue st1 ∧
    (∀ j, state_of j st = Some Queued → state_of j st1 = Some Queued)).
  { intros id c s Hc st1. unfold st1.
    rewrite (settle_application _ _ _ _ Hc eq_refl). split; [|split; [|split; [|split]]].
    - by apply Wedged_set_state.
    - by rewrite set_state_callbacks.
    - by rewrite set_state_refreshPosts.
    - by rewrite set_state_queue.
    - intros j Hj. rewrite state_of_set_state_ne; [done|].
      intros ->. unfold state_of in Hj. by rewrite Hc in Hj. }
  destruct ev as [c|id r|id r|leader r|leader e]; unfold st'; cbn [step].
  - split; [|split; [|split; [|split]]]; try done.
    + split; [done|]. cbn. apply Forall_app. split; [done|].
      by repeat constructor.
    + intros id Hid. unfold state_of in *. cbn.
      rewrite lookup_app_l; [done|].
      destruct (calls st !! id) eqn:E; [by eapply lookup_lt_Some|done].
  - unfold state_of. destruct (calls st !! id) as [[c o []]|] eqn:Hc; try done.
    cbn. pose proof (Forall_lookup_1 _ _ _ _ Hall Hc) as Ho. cbn in Ho. subst o.
    by apply (Hsettle id c).
  - destruct (calls st !! id) as [[c o []]|] eqn:Hc; try done.
    pose proof (Forall_lookup_1 _ _ _ _ Hall Hc) as Ho. cbn in Ho. subst o.
    unfold onRejected. rewrite Hflag. cbn [negb].
    destruct (is401 _); [|by apply (Hsettle id c)].
    split; [|split; [|split; [|split]]].
    + apply Wedged_set_state; [done|]. split; [done|]. done.
    + by rewrite set_state_callbacks.
    + by rewrite set_state_refreshPosts.
    + rewrite set_state_queue. cbn. by apply prefix_app_r.
    + intros j Hj. rewrite state_of_set_state_ne; [done|].
      intros ->. unfold state_of in Hj. by rewrite Hc in Hj.
  - unfold state_of. destruct (calls st !! leader) as [[c o []]|] eqn:Hc; try done.
    by pose proof (Forall_lookup_1 _ _ _ _ Hall Hc).
  - unfold state_of. destruct (calls st !! leader) as [[c o []]|] eqn:Hc; try done.
    by pose proof (Forall_lookup_1 _ _ _ _ Hall Hc).
Qed.

Lemma Wedged_run evs : ∀ st,
  Wedged st →
  let st' := run evs st in
  Wedged st' ∧
  callbacks st' = callbacks st ∧
  refreshPosts st' = refreshPosts st ∧
  refreshAndRetryQueue st `prefix_of` refreshAndRetryQueue st' ∧
  (∀ id, state_of id st = Some Queued → state_of id st' = Some Queued).
Proof.
  induction evs as [|ev evs IH]; intros st HW; [done|].
  destruct (Wedged_step ev st HW) as (HW1 & Hcb1 & Hp1 & Hq1 & Hs1).
  destruct (IH _ HW1) as (HW2 & Hcb2 & Hp2 & Hq2 & Hs2).
  change (run (ev :: evs) st) with (run evs (step ev st)). cbn zeta in *.
  split; [done|]. split; [congruence|]. split; [congruence|].
  split; [by etransitivity|]. intros id Hid. by apply Hs2, Hs1.
Qed.

(** ** What becomes of a follower *)




(** The state [wedged] is wedged. *)
Lemma wedged_Wedged : Wedged wedged.
Proof. split; [reflexivity|]. vm_compute. repeat constructor. Qed.


(** ** The leader's own promise *)

(** C3, evaluated.  Three requests failed with 401; the refresh answered
    with T2 and R2, which are stored; the leader's request went out again
    with Bearer T2 and is answered with a 200.  The answer settles the
    resubmission only: the leader's promise is not resolved with it, the
    leader is the one entry of the queue, pending, with the flag down. *)
Lemma leader_pending_after_successful_refresh :
  let st := step (Response 3 r200) retryPending in
  localStorage retryPending !! "token" = Some "T2" ∧
  localStorage retryPending !! "refreshToken" = Some "R2" ∧
  dispatched retryPending !! 3
  = Some (LeaderRetry 0, mkConfig "/api/a" (Some "Bearer T2")) ∧
  state_of 3 st = Some (Settled (Resolve r200)) ∧
  state_of 0 st = Some Queued ∧
  refreshAndRetryQueue st = [mkItem (mkConfig "/api/a" (Some "Bearer T1")) 0] ∧
  isRefreshing st = false ∧
  callbacks st = [].
Proof. vm_compute. repeat split. Qed.

(** C4, evaluated.  Three requests failed with 401 and the refresh call
    fails.  The store is emptied and the leader's request is not sent
    again, but the leader's promise is not rejected with the refresh
    error: the error is only logged, and the leader is the one entry of
    the queue, pending, with the flag down. *)
Lemma leader_pending_after_failed_refresh :
  let st := step (RefreshFailure 0 refreshError) refreshPending in
  localStorage st = ∅ ∧
  (dispatched st).*1
  = [Application; Application; Application; QueueReplay 1; QueueReplay 2] ∧
  console st = [refreshError] ∧
  state_of 0 st = Some Queued ∧
  state_of 0 st ≠ Some (Settled (Reject refreshError)) ∧
  refreshAndRetryQueue st = [mkItem (mkConfig "/api/a" (Some "Bearer T1")) 0] ∧
  isRefreshing st = false.
Proof. vm_compute. repeat split. discriminate. Qed.

(** Whatever ends the leader's turn from the await, the leader is queued. *)
Lemma leader_joins_queue leader orig fulfilled st :
  leader < length (calls st) →
  let st' := afterAwait leader orig fulfilled st in
  state_of leader st' = Some Queued ∧
  refreshAndRetryQueue st' = [mkItem orig leader] ∧
  isRefreshing st' = false.
Proof.
  intros Hlt st'. split; [by apply afterAwait_state_of_leader|].
  split; [apply afterAwait_queue|apply afterAwait_isRefreshing].
Qed.

(** ** The flag after a 401 on the leader's resubmission *)

(** C6, evaluated.  Three requests failed with 401; the refresh answered
    with T2 and R2 and the leader's request went out again with Bearer T2,
    as call 3, from inside the awaited chain, with the flag still up.  That
    request fails with 401: its handler finds the flag up and queues it,
    so the chain the leader awaits never settles, the finally block is not
    reached and the flag stays up.  A request sent afterwards that fails
    with 401 is queued as well, with no new call to the refresh endpoint;
    and whatever happens later, the flag stays up and the refresh endpoint
    is not called again. *)
Lemma flag_stuck_after_retry_401 :
  let st := step (Failure 3 (Some r401)) retryPending in
  let st' := run [Request reqD; Failure 4 (Some r401)] st in
  (isRefreshing retryPending = true ∧
   refreshPosts retryPending = ["R1"] ∧
   localStorage retryPending !! "refreshToken" = Some "R2" ∧
   dispatched retryPending !! 3
   = Some (LeaderRetry 0, mkConfig "/api/a" (Some "Bearer T2"))) ∧
  (isRefreshing st = true ∧
   state_of 0 st = Some (AwaitingRetry (mkConfig "/api/a" (Some "Bearer T1"))) ∧
   state_of 3 st = Some Queued ∧
   promise <$> refreshAndRetryQueue st = [1; 2; 3]) ∧
  (isRefreshing st' = true ∧
   refreshPosts st' = ["R1"] ∧
   state_of 4 st' = Some Queued ∧
   promise <$> refreshAndRetryQueue st' = [1; 2; 3; 4]) ∧
  (∀ evs,
     isRefreshing (run evs st) = true ∧
     refreshPosts (run evs st) = ["R1"] ∧
     state_of 3 (run evs st) = Some Queued).
Proof.
  cbv zeta. split; [|split; [|split]].
  - vm_compute. by repeat split.
  - vm_compute. by repeat split.
  - vm_compute. by repeat split.
  - intros evs. fold wedged.
    destruct (Wedged_run evs wedged wedged_Wedged) as ([Hflag Hidle] & _ & Hp & _ & Hq).
    split; [exact Hflag|]. split; [by rewrite Hp|]. by apply Hq.
Qed.

(** ** Three concurrent 401s, from start to end *)

(** Requests 0, 1 and 2 fail with 401 before the refresh answers; the
    refresh stores T2; the leader's resubmission and both replays are
    answered with a 200.  One refresh call was made, the replays carried
    T2 and their answers resolved the two followers, each once; the flag is
    down; the leader is still pending, alone in the queue. *)
Example three_concurrent_401 :
  let st := run [Response 3 r200; Response 4 r200; Response 5 r200] retryPending in
  refreshPosts st = ["R1"] ∧
  dispatched st
  = [(Application, mkConfig "/api/a" (Some "Bearer T1"));
     (Application, mkConfig "/api/b" (Some "Bearer T1"));
     (Application, mkConfig "/api/c" (Some "Bearer T1"));
     (LeaderRetry 0, mkConfig "/api/a" (Some "Bearer T2"));
     (QueueReplay 1, mkConfig "/api/b" (Some "Bearer T2"));
     (QueueReplay 2, mkConfig "/api/c" (Some "Bearer T2"))] ∧
  callbacks st = [(1, Resolve r200); (2, Resolve r200)] ∧
  state_of 1 st = Some (Settled (Resolve r200)) ∧
  state_of 2 st = Some (Settled (Resolve r200)) ∧
  state_of 0 st = Some Queued ∧
  promise <$> refreshAndRetryQueue st = [0] ∧
  isRefreshing st = false.
Proof. vm_compute. by repeat split. Qed.

(** * Further properties of the service and of the handlers of the article *)

(** ** The token getters and the header *)

Lemma truthy_spec v t : truthy v = Some t ↔ v = Some t ∧ t ≠ "".
Proof.
  unfold truthy. destruct v as [s|].
  - destruct (decide (s = "")) as [->|Hne].
    + split; [done|]. by intros [[= <-] ?].
    + split; [by intros [= <-]|]. by intros [[= <-] ?].
  - split; [done|]. by intros [? ?].
Qed.

Lemma truthy_None v : truthy v = None ↔ v = None ∨ v = Some "".
Proof.
  unfold truthy. destruct v as [s|].
  - destruct (decide (s = "")) as [->|Hne].
    + split; [by right|done].
    + split; [done|]. intros [?|[= ?]]; done.
  - split; [by left|done].
Qed.

(** X1.  The two getters return a stored item only when it is a non-empty
    string: a missing item and an empty one both give null, and a getter
    never returns the empty string. *)
Theorem getters_ignore_empty_items ls :
  (∀ t, getToken ls = Some t ↔ ls !! "token" = Some t ∧ t ≠ "") ∧
  (getToken ls = None ↔ ls !! "token" = None ∨ ls !! "token" = Some "") ∧
  (∀ t, getRefreshToken ls = Some t ↔ ls !! "refreshToken" = Some t ∧ t ≠ "") ∧
  (getRefreshToken ls = None
   ↔ ls !! "refreshToken" = None ∨ ls !! "refreshToken" = Some "").
Proof.
  unfold getToken, getRefreshToken.
  split; [intros t; apply truthy_spec|]. split; [apply truthy_None|].
  split; [intros t; apply truthy_spec|apply truthy_None].
Qed.

(** X2.  [setAxiosHeader] keeps the target; with a token stored it
    replaces whatever Authorization header the descriptor had by Bearer and
    the token; with none it returns the descriptor as it is; applying it
    twice is applying it once. *)
Theorem setAxiosHeader_overrides ls c :
  setAxiosHeader ls (setAxiosHeader ls c) = setAxiosHeader ls c ∧
  url (setAxiosHeader ls c) = url c ∧
  (∀ token h,
     getToken ls = Some token →
     setAxiosHeader ls (mkConfig (url c) h)
     = mkConfig (url c) (Some ("Bearer " +:+ token))) ∧
  (getToken ls = None → setAxiosHeader ls c = c).
Proof.
  unfold setAxiosHeader. destruct (getToken ls) as [token|] eqn:Ht.
  - repeat split; try done. by intros ? ? [= <-].
  - repeat split; done.
Qed.

(** ** What the refresh answer leaves in the store *)

Lemma state_of_lt st id s : state_of id st = Some s → id < length (calls st).
Proof.
  unfold state_of. destruct (calls st !! id) eqn:E; [|done].
  intros _. by eapply lookup_lt_Some.
Qed.

Lemma RefreshResponse_store st leader orig r :
  state_of leader st = Some (AwaitingRefresh orig) →
  let st1 := step (RefreshResponse leader r) st in
  localStorage st1
  = setItem "refreshToken" (data r !! "refreshToken")
      (setItem "token" (data r !! "token") (localStorage st)) ∧
  dispatched st1
  = dispatched st ++ [(LeaderRetry leader, setAxiosHeader (localStorage st1) orig)].
Proof.
  intros Hl st1. unfold st1. rewrite (step_RefreshResponse _ _ _ _ Hl).
  unfold onRefreshFulfilled. rewrite set_state_localStorage, dispatched_set_state.
  split; [done|]. unfold dispatched. cbn. by rewrite fmap_app.
Qed.

(** X3.  When the refresh answer carries neither a token nor a refresh
    token, both items of the store become the text "undefined": the
    leader's request is sent again with Bearer undefined, and the next
    refresh would post "undefined" as refresh token. *)
Theorem refresh_answer_without_tokens st leader orig r :
  state_of leader st = Some (AwaitingRefresh orig) →
  data r !! "token" = None →
  data r !! "refreshToken" = None →
  let st1 := step (RefreshResponse leader r) st in
  getToken (localStorage st1) = Some "undefined" ∧
  getRefreshToken (localStorage st1) = Some "undefined" ∧
  dispatched st1
  = dispatched st ++
    [(LeaderRetry leader, mkConfig (url orig) (Some "Bearer undefined"))].
Proof.
  intros Hl Ht Hrt st1.
  destruct (RefreshResponse_store st leader orig r Hl) as [Hls Hd].
  fold st1 in Hls, Hd. rewrite Ht, Hrt in Hls.
  assert (Htok : getToken (localStorage st1) = Some "undefined").
  { rewrite Hls. unfold getToken, setItem. cbn.
    rewrite lookup_insert_ne by done. by rewrite lookup_insert_eq. }
  split; [done|]. split.
  - rewrite Hls. unfold getRefreshToken, setItem. cbn. by rewrite lookup_insert_eq.
  - rewrite Hd. by rewrite (setAxiosHeader_Some _ _ _ Htok).
Qed.

(** X4.  When the refresh answer carries the empty string as token, the
    store holds an empty token, which the getter treats as absent: the
    leader's request is sent again exactly as it failed, and a request made
    afterwards leaves without any header written. *)
Theorem refresh_answer_with_empty_token st leader orig r :
  state_of leader st = Some (AwaitingRefresh orig) →
  data r !! "token" = Some "" →
  let st1 := step (RefreshResponse leader r) st in
  localStorage st1 !! "token" = Some "" ∧
  getToken (localStorage st1) = None ∧
  dispatched st1 = dispatched st ++ [(LeaderRetry leader, orig)] ∧
  (∀ c, dispatched (step (Request c) st1) = dispatched st1 ++ [(Application, c)]).
Proof.
  intros Hl Ht st1.
  destruct (RefreshResponse_store st leader orig r Hl) as [Hls Hd].
  fold st1 in Hls, Hd. rewrite Ht in Hls.
  assert (Hitem : localStorage st1 !! "token" = Some "").
  { rewrite Hls. unfold setItem. cbn.
    rewrite lookup_insert_ne by done. by rewrite lookup_insert_eq. }
  assert (Htok : getToken (localStorage st1) = None).
  { unfold getToken. by rewrite Hitem. }
  split; [done|]. split; [done|]. split.
  - rewrite Hd. by rewrite (setAxiosHeader_None _ _ Htok).
  - intros c. unfold dispatched. cbn. rewrite fmap_app. cbn.
    by rewrite (setAxiosHeader_None _ _ Htok).
Qed.

(** ** The leader's resubmission fails *)

(** X5.  When the leader's resubmission fails with anything but a 401
    (on a host whose console works), the rejection handler of the refresh
    chain takes it for a refresh error: the error is logged and the store
    emptied although the refresh had succeeded; the location is not
    touched; the queue is then drained with the descriptors as queued, the
    flag lowered and the leader left pending in the queue. *)
Theorem retry_failure_clears_store st id c leader orig r :
  calls st !! id = Some (mkCall c (LeaderRetry leader) InFlight) →
  state_of leader st = Some (AwaitingRetry orig) →
  is401 (mkError c r) = false →
  console_raises st = false →
  let st' := step (Failure id r) st in
  localStorage st' = ∅ ∧
  console st' = console st ++ [mkError c r] ∧
  location_href st' = location_href st ∧
  refreshPosts st' = refreshPosts st ∧
  isRefreshing st' = false ∧
  state_of id st' = Some (Settled (Reject (mkError c r))) ∧
  state_of leader st' = Some Queued ∧
  refreshAndRetryQueue st' = [mkItem orig leader] ∧
  dispatched st'
  = dispatched st ++
    ((fun item => (QueueReplay (promise item), config item))
       <$> refreshAndRetryQueue st).
Proof.
  intros Hc Hl H401 Hcons st'.
  assert (Hne : id ≠ leader).
  { intros ->. unfold state_of in Hl. by rewrite Hc in Hl. }
  assert (Hlt : leader < length (calls st)) by (by eapply state_of_lt).
  assert (Hidlt : id < length (calls st)) by (by eapply lookup_lt_Some).
  unfold st'. rewrite (step_Failure_retry _ _ _ _ _ _ Hc Hl H401). cbn zeta.
  unfold onRefreshRejected. rewrite set_state_console_raises, Hcons. cbn [fst snd].
  set (s1 := set_localStorage ∅ _).
  assert (Hcalls : calls s1 = calls (set_state id (Settled (Reject (mkError c r))) st))
    by done.
  rewrite afterAwait_true_localStorage, afterAwait_isRefreshing, afterAwait_queue,
    afterAwait_refreshPosts, dispatched_afterAwait_true.
  split; [done|].
  split.
  { unfold afterAwait. rewrite drain_eq. unfold s1. cbn.
    unfold set_state at 1. cbn.
    destruct (_ !! leader); cbn; by rewrite ?set_state_callbacks; unfold set_state;
      rewrite Hc. }
  split.
  { unfold afterAwait. rewrite drain_eq. unfold s1. cbn.
    unfold set_state at 1. cbn.
    destruct (_ !! leader); cbn; unfold set_state; by rewrite Hc. }
  split; [unfold s1; cbn; by rewrite set_state_refreshPosts|].
  split; [done|].
  split.
  { unfold state_of. rewrite afterAwait_true_lookup_ne by done.
    rewrite Hcalls. rewrite lookup_app_l by (by rewrite set_state_length).
    by rewrite (set_state_lookup_eq _ _ _ _ Hc). }
  split.
  { apply afterAwait_state_of_leader. by rewrite Hcalls, set_state_length. }
  split; [done|].
  f_equal.
  - unfold s1. unfold dispatched at 1. cbn.
    fold (dispatched (set_state id (Settled (Reject (mkError c r))) st)).
    by rewrite dispatched_set_state.
  - unfold s1. cbn. rewrite set_state_queue.
    apply list_fmap_ext. intros i item _. by rewrite setAxiosHeader_None.
Qed.

(** X6.  When the leader's resubmission fails with 401 while no other
    handler waits and every other request in flight is the application's,
    the resubmission is queued behind its own leader, and from then on,
    whatever the network does, the flag stays up, the refresh endpoint is
    not called again, no callback is invoked, nothing leaves the queue and
    every queued promise stays pending. *)
Theorem retry_401_wedges st id c leader r evs :
  isRefreshing st = true →
  calls st !! id = Some (mkCall c (LeaderRetry leader) InFlight) →
  status r = 401 →
  (∀ j c', calls st !! j = Some c' → j ≠ id → idle c') →
  let st' := run (Failure id (Some r) :: evs) st in
  isRefreshing st' = true ∧
  refreshPosts st' = refreshPosts st ∧
  callbacks st' = callbacks st ∧
  (refreshAndRetryQueue st ++ [mkItem c id]) `prefix_of` refreshAndRetryQueue st' ∧
  state_of id st' = Some Queued ∧
  (∀ j, state_of j st = Some Queued → state_of j st' = Some Queued).
Proof.
  intros Hflag Hc Hr Hidle st'.
  assert (H401 : is401 (mkError c (Some r)) = true).
  { unfold is401. cbn. by rewrite Hr. }
  assert (Hlt : id < length (calls st)) by (by eapply lookup_lt_Some).
  pose proof (step_Failure_follower _ _ _ _ _ Hc Hflag H401) as Hstep.
  set (st1 := set_state id Queued (push (mkItem c id) st)) in *.
  assert (HW : Wedged st1).
  { split; [unfold st1; by rewrite set_state_isRefreshing|].
    apply Forall_lookup_2. intros j cj Hj.
    destruct (decide (j = id)) as [->|Hne].
    - unfold st1 in Hj. rewrite (set_state_lookup_eq _ _ _ (mkCall c (LeaderRetry leader) InFlight)) in Hj by done.
      by injection Hj as <-.
    - unfold st1 in Hj. rewrite set_state_lookup_ne in Hj by done.
      by apply (Hidle j). }
  destruct (Wedged_run evs st1 HW) as ([Hf _] & Hcb & Hp & Hq & Hs).
  change st' with (run evs (step (Failure id (Some r)) st)). rewrite Hstep.
  split; [done|].
  split; [rewrite Hp; unfold st1; by rewrite set_state_refreshPosts|].
  split; [rewrite Hcb; unfold st1; by rewrite set_state_callbacks|].
  split; [unfold st1 in Hq at 1; by rewrite set_state_queue in Hq|].
  split.
  - apply Hs. unfold st1. by apply state_of_set_state_eq.
  - intros j Hj. apply Hs. unfold st1.
    rewrite state_of_set_state_ne; [done|].
    intros ->. unfold state_of in Hj. by rewrite Hc in Hj.
Qed.

(** ** What an event can do to the refresh calls and to the location *)

Lemma onRefreshRejected_frame e st :
  refreshPosts (onRefreshRejected e st).2 = refreshPosts st ∧
  location_href (onRefreshRejected e st).2 = location_href st ∧
  calls (onRefreshRejected e st).2 = calls st.
Proof. unfold onRefreshRejected. by destruct (console_raises st). Qed.

Lemma afterAwait_location_href leader orig fulfilled st :
  location_href (afterAwait leader orig fulfilled st) = location_href st.
Proof.
  unfold afterAwait. rewrite set_state_location_href.
  destruct fulfilled; [|done]. by rewrite drain_eq.
Qed.

Lemma settle_frame fuel : ∀ id s st,
  refreshPosts (settle fuel id s st) = refreshPosts st ∧
  location_href (settle fuel id s st) = location_href st.
Proof.
  induction fuel as [|fuel IH]; intros id s st; [done|].
  cbn [settle]. destruct (calls st !! id) as [c|]; [|done].
  destruct (origin c) as [|leader|follower].
  - by rewrite set_state_refreshPosts, set_state_location_href.
  - destruct (state_of leader _) as [[| |orig| |]|];
      try by rewrite set_state_refreshPosts, set_state_location_href.
    destruct s as [r|e].
    + by rewrite afterAwait_refreshPosts, afterAwait_location_href,
        set_state_refreshPosts, set_state_location_href.
    + destruct (onRefreshRejected_frame e (set_state id (Settled (Reject e)) st))
        as (H1 & H2 & _).
      destruct (onRefreshRejected _ _) as [f s1]. cbn in H1, H2.
      by rewrite afterAwait_refreshPosts, afterAwait_location_href, H1, H2,
        set_state_refreshPosts, set_state_location_href.
  - destruct (IH follower s
               (set_callbacks
                  (callbacks (set_state id (Settled s) st) ++ [(follower, s)])
                  (set_state id (Settled s) st))) as [H1 H2].
    rewrite H1, H2. cbn.
    by rewrite set_state_refreshPosts, set_state_location_href.
Qed.

Lemma settle_localStorage_empty fuel : ∀ id s st,
  localStorage st = ∅ → localStorage (settle fuel id s st) = ∅.
Proof.
  induction fuel as [|fuel IH]; intros id s st Hst; [done|].
  cbn [settle]. destruct (calls st !! id) as [c|]; [|done].
  destruct (origin c) as [|leader|follower].
  - by rewrite set_state_localStorage.
  - destruct (state_of leader _) as [[| |orig| |]|];
      try by rewrite set_state_localStorage.
    destruct s as [r|e].
    + by rewrite afterAwait_true_localStorage, set_state_localStorage.
    + unfold onRefreshRejected. destruct (console_raises _).
      * by rewrite afterAwait_false_localStorage.
      * by rewrite afterAwait_true_localStorage.
  - apply IH. cbn. by rewrite set_state_localStorage.
Qed.

(** X9.  No event calls the refresh endpoint while the flag is up; an
    event makes at most one refresh call, and then it is a failure that
    found the flag down and a refresh token stored, it posts that token and
    leaves the flag up. *)
Theorem one_refresh_call_per_election ev st :
  (isRefreshing st = true → refreshPosts (step ev st) = refreshPosts st) ∧
  (refreshPosts (step ev st) = refreshPosts st ∨
   ∃ id r rt,
     ev = Failure id r ∧
     isRefreshing st = false ∧
     getRefreshToken (localStorage st) = Some rt ∧
     refreshPosts (step ev st) = refreshPosts st ++ [rt] ∧
     isRefreshing (step ev st) = true).
Proof.
  assert (Hmain :
    refreshPosts (step ev st) = refreshPosts st ∨
    ∃ id r rt,
      ev = Failure id r ∧ isRefreshing st = false ∧
      getRefreshToken (localStorage st) = Some rt ∧
      refreshPosts (step ev st) = refreshPosts st ++ [rt] ∧
      isRefreshing (step ev st) = true).
  { destruct ev as [c|id r|id r|leader r|leader e]; cbn [step].
    - by left.
    - left. destruct (state_of id st) as [[]|]; try done. apply settle_frame.
    - destruct (calls st !! id) as [[c o []]|] eqn:Hc; try (by left).
      unfold onRejected. destruct (is401 _).
      + destruct (isRefreshing st) eqn:Hflag; cbn [negb].
        * left. by rewrite set_state_refreshPosts.
        * cbn. destruct (getRefreshToken (localStorage st)) as [rt|] eqn:Hrt.
          -- right. exists id, r, rt.
             by rewrite set_state_refreshPosts, set_state_isRefreshing.
          -- left. by rewrite (proj1 (settle_frame _ _ _ _)).
      + left. apply settle_frame.
    - left. destruct (state_of leader st) as [[| orig | | |]|]; try done.
      unfold onRefreshFulfilled. by rewrite set_state_refreshPosts.
    - left. destruct (state_of leader st) as [[| orig | | |]|]; try done.
      destruct (onRefreshRejected_frame e st) as (H1 & _ & _).
      destruct (onRefreshRejected e st) as [f s1]. cbn in H1.
      by rewrite afterAwait_refreshPosts. }
  split; [|done]. intros Hflag.
  destruct Hmain as [?|(id & r & rt & _ & Hf & _)]; [done|congruence].
Qed.

(** X10.  The location changes only when a failure finds the flag down
    and no refresh token stored, and then it becomes "/" and the store is
    empty; no other event touches it (a failed refresh empties the store
    without changing the location). *)
Theorem navigation_only_without_refresh_token ev st :
  location_href (step ev st) = location_href st ∨
  (location_href (step ev st) = "/" ∧
   ∃ id r,
     ev = Failure id r ∧
     isRefreshing st = false ∧
     getRefreshToken (localStorage st) = None ∧
     localStorage (step ev st) = ∅).
Proof.
  destruct ev as [c|id r|id r|leader r|leader e]; cbn [step].
  - by left.
  - left. destruct (state_of id st) as [[]|]; try done. apply settle_frame.
  - destruct (calls st !! id) as [[c o []]|] eqn:Hc; try (by left).
    unfold onRejected. destruct (is401 _).
    + destruct (isRefreshing st) eqn:Hflag; cbn [negb].
      * left. by rewrite set_state_location_href.
      * cbn. destruct (getRefreshToken (localStorage st)) as [rt|] eqn:Hrt.
        -- left. by rewrite set_state_location_href.
        -- right. rewrite (proj2 (settle_frame _ _ _ _)). split; [done|].
           exists id, r. repeat split; try done.
           by apply settle_localStorage_empty.
    + left. apply settle_frame.
  - left. destruct (state_of leader st) as [[| orig | | |]|]; try done.
    unfold onRefreshFulfilled. by rewrite set_state_location_href.
  - left. destruct (state_of leader st) as [[| orig | | |]|]; try done.
    destruct (onRefreshRejected_frame e st) as (_ & H2 & _).
    destruct (onRefreshRejected e st) as [f s1]. cbn in H2.
    by rewrite afterAwait_location_href.
Qed.

Lemma refresh_answer_without_tokens_witness :
  let st1 := step (RefreshResponse 0 refreshedNothing) refreshPending in
  getToken (localStorage st1) = Some "undefined" ∧
  getRefreshToken (localStorage st1) = Some "undefined" ∧
  dispatched st1 !! 3
  = Some (LeaderRetry 0, mkConfig "/api/a" (Some "Bearer undefined")).
Proof.
  destruct (refresh_answer_without_tokens refreshPending 0
              (mkConfig "/api/a" (Some "Bearer T1")) refreshedNothing)
    as (H1 & H2 & H3).
  - reflexivity.
  - reflexivity.
  - reflexivity.
  - split; [exact H1|]. split; [exact H2|]. by rewrite H3.
Defined.

Lemma refresh_answer_with_empty_token_witness :
  let st1 := step (RefreshResponse 0 refreshedEmpty) refreshPending in
  getToken (localStorage st1) = None ∧
  dispatched st1 !! 3
  = Some (LeaderRetry 0, mkConfig "/api/a" (Some "Bearer T1")).
Proof.
  destruct (refresh_answer_with_empty_token refreshPending 0
              (mkConfig "/api/a" (Some "Bearer T1")) refreshedEmpty)
    as (_ & H2 & H3 & _).
  - reflexivity.
  - reflexivity.
  - split; [exact H2|]. by rewrite H3.
Defined.

Lemma retry_failure_clears_store_witness :
  let st' := step (Failure 3 (Some r500)) retryPending in
  getToken (localStorage retryPending) = Some "T2" ∧
  localStorage st' = ∅ ∧
  location_href st' = "/app" ∧
  isRefreshing st' = false ∧
  state_of 0 st' = Some Queued.
Proof.
  destruct (retry_failure_clears_store retryPending 3
              (mkConfig "/api/a" (Some "Bearer T2")) 0
              (mkConfig "/api/a" (Some "Bearer T1")) (Some r500))
    as (H1 & _ & H3 & _ & H5 & _ & H7 & _).
  - reflexivity.
  - reflexivity.
  - reflexivity.
  - reflexivity.
  - split; [reflexivity|]. split; [exact H1|]. split; [exact H3|].
    split; [exact H5|exact H7].
Defined.

Lemma retry_401_wedges_witness :
  let evs := [Request reqD; Failure 4 (Some r401);
              RefreshFailure 0 refreshError; Response 4 r200] in
  let st' := run (Failure 3 (Some r401) :: evs) retryPending in
  isRefreshing st' = true ∧
  refreshPosts st' = ["R1"] ∧
  callbacks st' = [] ∧
  state_of 1 st' = Some Queued.
Proof.
  destruct (retry_401_wedges retryPending 3
              (mkConfig "/api/a" (Some "Bearer T2")) 0 r401
              [Request reqD; Failure 4 (Some r401);
               RefreshFailure 0 refreshError; Response 4 r200])
    as (H1 & H2 & H3 & _ & _ & H6).
  - reflexivity.
  - reflexivity.
  - reflexivity.
  - intros j c' Hj Hne.
    destruct j as [|[|[|[|j]]]]; vm_compute in Hj; try discriminate;
      try (injection Hj as <-; exact I).
    by destruct Hne.
  - split; [exact H1|]. split; [exact H2|]. split; [exact H3|].
    apply H6. reflexivity.
Defined.

(** ** A replay fails with 401 *)

Lemma afterAwait_replay_lookup st leader orig i item :
  refreshAndRetryQueue st !! i = Some item →
  leader < length (calls st) →
  calls (afterAwait leader orig true st) !! (length (calls st) + i)
  = Some (replayCall (localStorage st) item).
Proof.
  intros Hi Hlt. rewrite afterAwait_true_lookup_ne by lia.
  rewrite lookup_app_r by lia.
  replace (length (calls st) + i - length (calls st)) with i by lia.
  by rewrite list_lookup_fmap, Hi.
Qed.

(** X11.  After a drain the flag is down, so a replay that fails with 401
    while a refresh token is stored makes its handler the next leader: the
    refresh endpoint is called again with the stored token, the flag goes
    up, the replay waits, and the follower's callbacks are not invoked. *)
Theorem replay_401_elects_new_leader st leader orig i item r rt :
  refreshAndRetryQueue st !! i = Some item →
  leader < length (calls st) →
  getRefreshToken (localStorage st) = Some rt →
  status r = 401 →
  let replay := length (calls st) + i in
  let st1 := afterAwait leader orig true st in
  let st2 := step (Failure replay (Some r)) st1 in
  refreshPosts st2 = refreshPosts st ++ [rt] ∧
  isRefreshing st2 = true ∧
  state_of replay st2
  = Some (AwaitingRefresh (setAxiosHeader (localStorage st) (config item))) ∧
  callbacks st2 = callbacks st ∧
  refreshAndRetryQueue st2 = [mkItem orig leader].
Proof.
  intros Hi Hlt Hrt Hr replay st1 st2.
  pose proof (afterAwait_replay_lookup st leader orig i item Hi Hlt) as Hc.
  fold replay st1 in Hc. unfold replayCall in Hc.
  assert (H401 : is401 (mkError (setAxiosHeader (localStorage st) (config item))
                          (Some r)) = true).
  { unfold is401. cbn. by rewrite Hr. }
  assert (Hrt1 : getRefreshToken (localStorage st1) = Some rt).
  { unfold st1. by rewrite afterAwait_true_localStorage. }
  unfold st2.
  rewrite (step_Failure_leader _ _ _ _ _ _ Hc (afterAwait_isRefreshing _ _ _ _)
             H401 Hrt1).
  autorewrite with proj. cbn.
  assert (Hp : refreshPosts st1 = refreshPosts st) by apply afterAwait_refreshPosts.
  assert (Hcb : callbacks st1 = callbacks st) by apply afterAwait_callbacks.
  assert (Hq : refreshAndRetryQueue st1 = [mkItem orig leader])
    by apply afterAwait_queue.
  split; [by rewrite Hp|]. split; [done|]. split; [|done].
  apply state_of_set_state_eq. cbn. by eapply lookup_lt_Some.
Qed.

Lemma replay_401_elects_new_leader_witness :
  let st1 := step (Response 3 r200) retryPending in
  let st2 := step (Failure 4 (Some r401)) st1 in
  refreshPosts st2 = ["R1"; "R2"] ∧ isRefreshing st2 = true.
Proof.
  assert (Hstep : step (Response 3 r200) retryPending
                  = afterAwait 0 (mkConfig "/api/a" (Some "Bearer T1")) true
                      (set_state 3 (Settled (Resolve r200)) retryPending))
    by (vm_compute; reflexivity).
  destruct (replay_401_elects_new_leader
              (set_state 3 (Settled (Resolve r200)) retryPending) 0
              (mkConfig "/api/a" (Some "Bearer T1")) 0
              (mkItem (mkConfig "/api/b" (Some "Bearer T1")) 1) r401 "R2")
    as (H1 & H2 & _).
  - vm_compute; reflexivity.
  - vm_compute; lia.
  - vm_compute; reflexivity.
  - reflexivity.
  - cbv zeta. rewrite Hstep. vm_compute in H1, H2 |- *.
    split; [exact H1|exact H2].
Defined.

(** X12.  After a drain with no refresh token in the store (as after a
    failed refresh), a replay that fails with 401 is rejected at once: the
    follower's reject callback is invoked with that error, the store is
    emptied, the location set to "/", no refresh call is made and the flag
    is down. *)
Theorem replay_401_without_refresh_token st leader orig i item cF r :
  refreshAndRetryQueue st !! i = Some item →
  calls st !! promise item = Some (mkCall cF Application Queued) →
  leader < length (calls st) →
  leader ≠ promise item →
  getRefreshToken (localStorage st) = None →
  status r = 401 →
  let replay := length (calls st) + i in
  let error := mkError (setAxiosHeader (localStorage st) (config item)) (Some r) in
  let st1 := afterAwait leader orig true st in
  let st2 := step (Failure replay (Some r)) st1 in
  state_of (promise item) st2 = Some (Settled (Reject error)) ∧
  callbacks st2 = callbacks st ++ [(promise item, Reject error)] ∧
  localStorage st2 = ∅ ∧
  location_href st2 = "/" ∧
  refreshPosts st2 = refreshPosts st ∧
  isRefreshing st2 = false.
Proof.
  intros Hi HF Hlt Hne Hrt Hr replay error st1 st2.
  pose proof (afterAwait_replay_lookup st leader orig i item Hi Hlt) as Hc.
  fold replay st1 in Hc. unfold replayCall in Hc.
  assert (HFlt : promise item < length (calls st)) by (by eapply lookup_lt_Some).
  assert (HF1 : calls st1 !! promise item = Some (mkCall cF Application Queued)).
  { unfold st1. rewrite afterAwait_true_lookup_ne by done. by rewrite lookup_app_l. }
  assert (H401 : is401 error = true).
  { unfold is401, error. cbn. by rewrite Hr. }
  assert (Hrt1 : getRefreshToken (localStorage st1) = None).
  { unfold st1. by rewrite afterAwait_true_localStorage. }
  assert (Hflag : isRefreshing st1 = false) by apply afterAwait_isRefreshing.
  set (s1 := set_isRefreshing false
               (set_location_href "/" (set_localStorage ∅ (set_isRefreshing true st1)))).
  assert (Hstep : st2 = settle (length (calls s1)) replay (Reject error) s1).
  { unfold st2, step, onRejected. rewrite Hc. fold error. rewrite H401, Hflag.
    cbn. by rewrite Hrt1. }
  rewrite Hstep.
  rewrite (settle_replay replay _ (promise item) cF Queued (Reject error) s1 Hc HF1).
  autorewrite with proj. cbn.
  assert (Hp : refreshPosts st1 = refreshPosts st) by apply afterAwait_refreshPosts.
  assert (Hcb : callbacks st1 = callbacks st) by apply afterAwait_callbacks.
  rewrite Hcb, set_state_localStorage, set_state_location_href,
    set_state_refreshPosts, set_state_isRefreshing.
  split; [|by rewrite <- Hp].
  apply state_of_set_state_eq. cbn. rewrite set_state_length.
  by eapply lookup_lt_Some.
Qed.

Lemma replay_401_without_refresh_token_witness :
  let st1 := step (RefreshFailure 0 refreshError) refreshPending in
  let st2 := step (Failure 3 (Some r401)) st1 in
  state_of 1 st2
  = Some (Settled (Reject (mkError (mkConfig "/api/b" (Some "Bearer T1")) (Some r401)))) ∧
  location_href st2 = "/" ∧
  isRefreshing st2 = false.
Proof.
  assert (Hstep : step (RefreshFailure 0 refreshError) refreshPending
                  = afterAwait 0 (mkConfig "/api/a" (Some "Bearer T1")) true
                      refreshFailureLogged)
    by (vm_compute; reflexivity).
  destruct (replay_401_without_refresh_token refreshFailureLogged 0
              (mkConfig "/api/a" (Some "Bearer T1")) 0
              (mkItem (mkConfig "/api/b" (Some "Bearer T1")) 1)
              (mkConfig "/api/b" (Some "Bearer T1")) r401)
    as (H1 & _ & _ & H4 & _ & H6).
  - vm_compute; reflexivity.
  - vm_compute; reflexivity.
  - vm_compute; lia.
  - discriminate.
  - vm_compute; reflexivity.
  - reflexivity.
  - cbv zeta. rewrite Hstep. vm_compute in H1, H4, H6 |- *.
    split; [exact H1|]. split; [exact H4|exact H6].
Defined.

(** ** The queue over every run *)

(** X7.  In every state the service can reach from its start, no promise
    is in the queue twice, every queued promise is pending and has not been
    called back, and a promise whose replay has not settled is pending, out
    of the queue and not called back. *)
Theorem queue_entries_pending evs ls :
  let st := run evs (initial ls) in
  NoDup (promise <$> refreshAndRetryQueue st) ∧
  Forall (fun item =>
            state_of (promise item) st = Some Queued ∧
            (promise item ∉ (callbacks st).*1))
    (refreshAndRetryQueue st) ∧
  (∀ id c follower,
     calls st !! id = Some c →
     origin c = QueueReplay follower →
     unsettled (state c) = true →
     state_of follower st = Some Queued ∧
     (follower ∉ promise <$> refreshAndRetryQueue st) ∧
     (follower ∉ (callbacks st).*1)).
Proof.
  intros st.
  destruct (Inv_run evs _ (Inv_initial ls)) as (H1 & H2 & H3). fold st in H1, H2, H3.
  unfold tickets in H1.
  apply NoDup_app in H1 as (Hq & Hdis & H1).
  apply NoDup_app in H1 as (Ho & Hdis' & Hcb).
  split; [done|]. split.
  - apply Forall_forall. intros item Hitem.
    assert (Hp : promise item ∈ promise <$> refreshAndRetryQueue st)
      by (by apply list_elem_of_fmap_2).
    split.
    + apply H2. apply elem_of_app. by left.
    + intros Hin. apply (Hdis _ Hp). apply elem_of_app. by right.
  - intros id c follower Hc Ho' Hu.
    assert (Hin : follower ∈ omap owes (calls st)).
    { apply list_elem_of_omap. exists c. split; [by eapply list_elem_of_lookup_2|].
      unfold owes. by rewrite Ho', Hu. }
    split; [|split].
    + apply H2. apply elem_of_app. by right.
    + intros Hq'. apply (Hdis _ Hq'). apply elem_of_app. by left.
    + by apply Hdis'.
Qed.

(** ** One leader at a time *)

Section omap_insert_more.
Context {A B : Type} (f : A → option B).

Lemma omap_insert_add (l : list A) i x y b :
  l !! i = Some x → f x = None → f y = Some b →
  omap f (<[i:=y]> l) ≡ₚ b :: omap f l.
Proof.
  revert i. induction l as [|a l IH]; intros [|i] Hi Hx Hy; simplify_eq/=.
  - by rewrite Hx, Hy.
  - destruct (f a) as [b'|].
    + rewrite (IH i Hi Hx Hy). apply Permutation_swap.
    + by apply IH.
Qed.

Lemma omap_two (l : list A) i j x y :
  l !! i = Some x → l !! j = Some y → i ≠ j →
  is_Some (f x) → is_Some (f y) → 2 ≤ length (omap f l).
Proof.
  revert i j. induction l as [|a l IH]; intros i j Hi Hj Hne [bx Hx] [by' Hy]; [done|].
  destruct i as [|i], j as [|j]; simplify_eq/=.
  - rewrite Hx. cbn.
    assert (by' ∈ omap f l).
    { apply list_elem_of_omap. exists y. split; [by eapply list_elem_of_lookup_2|done]. }
    destruct (omap f l); [by apply elem_of_nil in H|]. cbn. lia.
  - rewrite Hy. cbn.
    assert (bx ∈ omap f l).
    { apply list_elem_of_omap. exists x. split; [by eapply list_elem_of_lookup_2|done]. }
    destruct (omap f l); [by apply elem_of_nil in H|]. cbn. lia.
  - assert (2 ≤ length (omap f l)) by (eapply (IH i j); eauto).
    destruct (f a); cbn; lia.
Qed.
End omap_insert_more.

Lemma leaders_set_state_same st id c s :
  calls st !! id = Some c → awaiting s = awaiting (state c) →
  leaders (set_state id s st) = leaders st.
Proof.
  intros Hc Hs. unfold leaders, set_state. rewrite Hc. cbn.
  apply (omap_insert_same _ _ _ c); [done|]. unfold suspended. cbn. by rewrite Hs.
Qed.

Lemma leaders_set_state_leave st id c s :
  calls st !! id = Some c → awaiting (state c) = true → awaiting s = false →
  length (leaders st) = S (length (leaders (set_state id s st))).
Proof.
  intros Hc Hw Hs. unfold leaders, set_state. rewrite Hc. cbn.
  assert (Hp := omap_insert_drop suspended (calls st) id c
                  (mkCall (sent c) (origin c) s) (sent c) Hc).
  apply Permutation_length in Hp; [done| |].
  - unfold suspended. by rewrite Hw.
  - unfold suspended. cbn. by rewrite Hs.
Qed.

Lemma leaders_set_state_enter st id c s :
  calls st !! id = Some c → awaiting (state c) = false → awaiting s = true →
  length (leaders (set_state id s st)) = S (length (leaders st)).
Proof.
  intros Hc Hw Hs. unfold leaders, set_state. rewrite Hc. cbn.
  assert (Hp := omap_insert_add suspended (calls st) id c
                  (mkCall (sent c) (origin c) s) (sent c) Hc).
  apply Permutation_length in Hp; [done| |].
  - unfold suspended. by rewrite Hw.
  - unfold suspended. cbn. by rewrite Hs.
Qed.

Lemma leaders_positive st id c :
  calls st !! id = Some c → awaiting (state c) = true → 0 < length (leaders st).
Proof.
  intros Hc Hw.
  assert (Hin : sent c ∈ leaders st).
  { apply list_elem_of_omap. exists c. split; [by eapply list_elem_of_lookup_2|].
    unfold suspended. by rewrite Hw. }
  destruct (leaders st); [by apply elem_of_nil in Hin|]. cbn. lia.
Qed.

Lemma OneLeader_afterAwait leader orig fulfilled st c :
  calls st !! leader = Some c → awaiting (state c) = true →
  length (leaders st) = 1 →
  OneLeader (afterAwait leader orig fulfilled st).
Proof.
  intros Hc Hw Hone. unfold OneLeader. rewrite afterAwait_isRefreshing.
  unfold afterAwait.
  set (s1 := push _ _).
  assert (Hc1 : calls s1 !! leader = Some c).
  { unfold s1. destruct fulfilled; cbn; [|done].
    rewrite drain_eq. cbn. rewrite lookup_app_l; [done|]. by eapply lookup_lt_Some. }
  assert (Hl1 : leaders s1 = leaders st).
  { unfold s1, leaders. destruct fulfilled; cbn; [|done].
    rewrite drain_eq. cbn. rewrite omap_app.
    assert (Hnil : omap suspended
                     (replayCall (localStorage st) <$> refreshAndRetryQueue st) = []).
    { induction (refreshAndRetryQueue st); [done|]. by cbn. }
    by rewrite Hnil, app_nil_r. }
  pose proof (leaders_set_state_leave s1 leader c Queued Hc1 Hw eq_refl) as Hlen.
  rewrite Hl1, Hone in Hlen. lia.
Qed.

Lemma OneLeader_settle fuel : ∀ id s st,
  Inv st → OneLeader st →
  (∀ c, calls st !! id = Some c →
        unsettled (state c) = true ∧ awaiting (state c) = false) →
  id ∉ (promise <$> refreshAndRetryQueue st) ++ omap owes (calls st) →
  OneLeader (settle fuel id s st).
Proof.
  induction fuel as [|fuel IH]; intros id s st HI HL Hu Hid; [done|].
  cbn [settle]. destruct (calls st !! id) as [c|] eqn:Hc; [|done].
  destruct (Hu c eq_refl) as [Hun Haw].
  pose proof (Coherent_settle _ _ _ _ _ s Hc Hun Hid HI) as Hs. cbn zeta in Hs.
  assert (Hcalls : calls (set_state id (Settled s) st)
                   = <[id := mkCall (sent c) (origin c) (Settled s)]> (calls st)).
  { unfold set_state. by rewrite Hc. }
  assert (HL1 : OneLeader (set_state id (Settled s) st)).
  { unfold OneLeader. rewrite set_state_isRefreshing.
    by rewrite (leaders_set_state_same _ _ c). }
  destruct (origin c) as [|leader|follower] eqn:Eo; [done| |].
  - unfold state_of.
    destruct (calls (set_state id (Settled s) st) !! leader) as [cl|] eqn:Hl; [|done].
    cbn. destruct (state cl) as [| |orig| |] eqn:Es; try done.
    assert (Hwl : awaiting (state cl) = true) by (by rewrite Es).
    assert (Hone : length (leaders (set_state id (Settled s) st)) = 1).
    { pose proof (leaders_positive _ _ _ Hl Hwl) as Hpos.
      unfold OneLeader in HL1. destruct (isRefreshing _); lia. }
    destruct s as [r|e].
    + by apply (OneLeader_afterAwait _ _ _ _ cl).
    + unfold onRefreshRejected. destruct (console_raises _);
        by apply (OneLeader_afterAwait _ _ _ _ cl).
  - destruct Hs as (Hco & Hnot & Hq).
    apply IH.
    + unfold Inv. cbn. by rewrite Hcalls, set_state_queue, set_state_callbacks.
    + exact HL1.
    + cbn. rewrite Hcalls. intros cF HcF. rewrite HcF in Hq. cbn in Hq.
      injection Hq as Hq. by rewrite Hq.
    + cbn. by rewrite Hcalls, set_state_queue.
Qed.

Lemma OneLeader_step ev st : Inv st → OneLeader st → OneLeader (step ev st).
Proof.
  intros HI HL. destruct ev as [c|id r|id r|leader r|leader e]; cbn [step].
  - unfold OneLeader, leaders, axiosInstance in *. cbn. rewrite omap_app. cbn.
    by rewrite app_nil_r.
  - unfold state_of. destruct (calls st !! id) as [[c o []]|] eqn:Hc; try done.
    cbn. apply OneLeader_settle; [done|done| |by eapply Inv_InFlight].
    intros c' Hc'. by simplify_eq.
  - destruct (calls st !! id) as [[c o []]|] eqn:Hc; try done.
    unfold onRejected. destruct (is401 _).
    + destruct (isRefreshing st) eqn:Hflag; cbn [negb].
      * unfold OneLeader. rewrite set_state_isRefreshing. cbn. rewrite Hflag.
        rewrite (leaders_set_state_same _ _ (mkCall c o InFlight)) by done.
        unfold OneLeader in HL. by rewrite Hflag in HL.
      * cbn. destruct (getRefreshToken (localStorage st)).
        -- unfold OneLeader. rewrite set_state_isRefreshing. cbn.
           rewrite (leaders_set_state_enter _ _ (mkCall c o InFlight)) by done.
           unfold OneLeader in HL. rewrite Hflag in HL. unfold leaders in *. cbn.
           by rewrite HL.
        -- apply OneLeader_settle; [done| | |by eapply Inv_InFlight].
           ++ unfold OneLeader in *. cbn. by rewrite Hflag in HL.
           ++ intros c' Hc'. cbn in Hc'. by simplify_eq.
    + apply OneLeader_settle; [done|done| |by eapply Inv_InFlight].
      intros c' Hc'. by simplify_eq.
  - unfold state_of. destruct (calls st !! leader) as [[c o []]|] eqn:Hc; try done.
    cbn. unfold onRefreshFulfilled. unfold OneLeader.
    rewrite set_state_isRefreshing. cbn.
    rewrite (leaders_set_state_same _ _ (mkCall c o (AwaitingRefresh originalRequest))).
    + unfold leaders. cbn. rewrite omap_app. cbn. by rewrite app_nil_r.
    + cbn. rewrite lookup_app_l; [done|]. by eapply lookup_lt_Some.
    + done.
  - unfold state_of. destruct (calls st !! leader) as [[c o []]|] eqn:Hc; try done.
    cbn.
    assert (Hone : length (leaders st) = 1).
    { pose proof (leaders_positive _ _ _ Hc eq_refl) as Hpos.
      unfold OneLeader in HL. destruct (isRefreshing st); lia. }
    unfold onRefreshRejected. destruct (console_raises st);
      by apply (OneLeader_afterAwait _ _ _ _ (mkCall c o (AwaitingRefresh originalRequest))).
Qed.

Lemma OneLeader_run evs : ∀ st, Inv st → OneLeader st → OneLeader (run evs st).
Proof.
  induction evs as [|ev evs IH]; intros st HI HL; [done|].
  cbn. apply IH; [by apply Inv_step|by apply OneLeader_step].
Qed.

(** X8.  In every state the service can reach from its start, at most one
    handler is suspended at the await, and the flag is up exactly when
    there is one. *)
Theorem one_leader_at_a_time evs ls :
  let st := run evs (initial ls) in
  length (leaders st) = (if isRefreshing st then 1 else 0) ∧
  (∀ i j ci cj,
     calls st !! i = Some ci → calls st !! j = Some cj →
     awaiting (state ci) = true → awaiting (state cj) = true → i = j) ∧
  (isRefreshing st = true ↔
   ∃ i c, calls st !! i = Some c ∧ awaiting (state c) = true).
Proof.
  intros st.
  assert (HL : OneLeader st).
  { apply OneLeader_run; [apply Inv_initial|done]. }
  split; [done|]. split.
  - intros i j ci cj Hi Hj Hwi Hwj.
    destruct (decide (i = j)) as [|Hne]; [done|].
    assert (2 ≤ length (leaders st)).
    { eapply (omap_two suspended _ i j ci cj); eauto; unfold suspended.
      - by rewrite Hwi.
      - by rewrite Hwj. }
    unfold OneLeader in HL. destruct (isRefreshing st); lia.
  - split.
    + intros Hflag. unfold OneLeader in HL. rewrite Hflag in HL.
      destruct (leaders st) as [|x l] eqn:El; [done|].
      assert (Hin : x ∈ leaders st) by (rewrite El; by left).
      apply list_elem_of_omap in Hin as (c & Hc & Hx).
      apply list_elem_of_lookup_1 in Hc as [i Hi].
      exists i, c. split; [done|]. unfold suspended in Hx.
      by destruct (awaiting (state c)).
    + intros (i & c & Hc & Hw).
      pose proof (leaders_positive _ _ _ Hc Hw) as Hpos.
      unfold OneLeader in HL. destruct (isRefreshing st); [done|lia].
Qed.

(** ** The handler of the article: what it does *)

Lemma article_set_state_frame id s st :
  Article.isRefreshing (Article.set_state id s st) = Article.isRefreshing st ∧
  Article.refreshAndRetryQueue (Article.set_state id s st)
  = Article.refreshAndRetryQueue st ∧
  Article.refreshCalls (Article.set_state id s st) = Article.refreshCalls st ∧
  Article.callbacks (Article.set_state id s st) = Article.callbacks st ∧
  length (Article.calls (Article.set_state id s st)) = length (Article.calls st) ∧
  Article.dispatched (Article.set_state id s st) = Article.dispatched st.
Proof.
  unfold Article.set_state, Article.dispatched.
  destruct (Article.calls st !! id) as [c|] eqn:Hc; [|done]. cbn.
  rewrite length_insert. repeat split.
  rewrite list_fmap_insert. cbn. apply list_insert_id.
  by rewrite list_lookup_fmap, Hc.
Qed.

Lemma article_set_state_lookup_ne id j s st :
  id ≠ j → Article.calls (Article.set_state id s st) !! j = Article.calls st !! j.
Proof.
  intros Hne. unfold Article.set_state.
  destruct (Article.calls st !! id); [|done]. cbn. by rewrite list_lookup_insert_ne.
Qed.

Lemma article_set_state_lookup_eq id s st c :
  Article.calls st !! id = Some c →
  Article.calls (Article.set_state id s st) !! id
  = Some (mkCall (sent c) (origin c) s).
Proof.
  intros Hc. unfold Article.set_state. rewrite Hc. cbn.
  apply list_lookup_insert_eq. by eapply lookup_lt_Some.
Qed.

Lemma article_state_of_ne id j s st :
  id ≠ j → Article.state_of j (Article.set_state id s st) = Article.state_of j st.
Proof. intros Hne. unfold Article.state_of. by rewrite article_set_state_lookup_ne. Qed.

Lemma article_state_of_eq id s st :
  id < length (Article.calls st) →
  Article.state_of id (Article.set_state id s st) = Some s.
Proof.
  intros Hlt. destruct (lookup_lt_is_Some_2 _ _ Hlt) as [c Hc].
  unfold Article.state_of. by rewrite (article_set_state_lookup_eq _ _ _ _ Hc).
Qed.

Lemma article_drain_eq st :
  Article.drain st
  = Article.mkState (Article.isRefreshing st) (Article.refreshAndRetryQueue st)
      (Article.calls st ++
       ((fun item => mkCall (config item) (QueueReplay (promise item)) InFlight)
          <$> Article.refreshAndRetryQueue st))
      (Article.refreshCalls st) (Article.callbacks st).
Proof.
  unfold Article.drain.
  assert (H : ∀ q s,
    foldl (fun st item =>
             Article.axiosInstance (QueueReplay (promise item)) (config item) st) s q
    = Article.mkState (Article.isRefreshing s) (Article.refreshAndRetryQueue s)
        (Article.calls s ++
         ((fun item => mkCall (config item) (QueueReplay (promise item)) InFlight) <$> q))
        (Article.refreshCalls s) (Article.callbacks s)).
  { induction q as [|item q IH]; intros s.
    - cbn. rewrite app_nil_r. by destruct s.
    - cbn [foldl]. rewrite IH. unfold Article.axiosInstance. cbn.
      by rewrite <- app_assoc. }
  apply H.
Qed.

Lemma article_step_follower id c o r st :
  Article.calls st !! id = Some (mkCall c o InFlight) →
  Article.isRefreshing st = true →
  is401 (mkError c r) = true →
  Article.step (Article.Failure id r) st
  = Article.set_state id Queued (Article.push (mkItem c id) st).
Proof.
  intros Hc Hflag H401. unfold Article.step, Article.onRejected.
  rewrite Hc, H401, Hflag. done.
Qed.

Lemma article_step_leader id c o r st :
  Article.calls st !! id = Some (mkCall c o InFlight) →
  Article.isRefreshing st = false →
  is401 (mkError c r) = true →
  Article.step (Article.Failure id r) st
  = Article.set_state id (AwaitingRefresh c)
      (Article.mkState true (Article.refreshAndRetryQueue st) (Article.calls st)
         (S (Article.refreshCalls st)) (Article.callbacks st)).
Proof.
  intros Hc Hflag H401. unfold Article.step, Article.onRejected.
  rewrite Hc, H401, Hflag. done.
Qed.

Lemma article_state_of_InFlight st id :
  Article.state_of id st = Some InFlight →
  ∃ c o, Article.calls st !! id = Some (mkCall c o InFlight).
Proof.
  unfold Article.state_of. destruct (Article.calls st !! id) as [[c o s]|]; [|done].
  cbn. intros [= ->]. eauto.
Qed.

Lemma article_itemsFor_cons st id c ids :
  Article.calls st !! id = Some c →
  Article.itemsFor st (id :: ids) = mkItem (sent c) id :: Article.itemsFor st ids.
Proof.
  intros Hc. unfold Article.itemsFor, Article.dispatched. simpl.
  by rewrite list_lookup_fmap, Hc.
Qed.

Lemma article_run_followers followers : ∀ st,
  Article.isRefreshing st = true →
  Forall (fun f => status f.2 = 401) followers →
  NoDup followers.*1 →
  Forall (fun id => Article.state_of id st = Some InFlight) followers.*1 →
  let st' := Article.run (Article.failures followers) st in
  Article.isRefreshing st' = true ∧
  Article.refreshCalls st' = Article.refreshCalls st ∧
  Article.callbacks st' = Article.callbacks st ∧
  Article.dispatched st' = Article.dispatched st ∧
  Article.refreshAndRetryQueue st'
  = Article.refreshAndRetryQueue st ++ Article.itemsFor st followers.*1 ∧
  promise <$> Article.itemsFor st followers.*1 = followers.*1 ∧
  Forall (fun id => Article.state_of id st' = Some Queued) followers.*1 ∧
  (∀ j, j ∉ followers.*1 → Article.calls st' !! j = Article.calls st !! j).
Proof.
  induction followers as [|[id r] fs IH]; intros st Hflag H401 Hnd Hin.
  - cbn. rewrite app_nil_r. repeat split; auto.
  - cbn [fmap list_fmap fst snd] in *.
    fold (fmap (M:=list) (@fst nat AxiosResponse)) in *.
    apply Forall_cons in H401 as [Hr H401]. cbn in Hr.
    apply NoDup_cons in Hnd as [Hid Hnd].
    apply Forall_cons in Hin as [Hid_in Hin].
    destruct (article_state_of_InFlight _ _ Hid_in) as (c & o & Hc).
    assert (Hstep : Article.step (Article.Failure id (Some r)) st
                    = Article.set_state id Queued (Article.push (mkItem c id) st)).
    { apply (article_step_follower _ _ o); auto. unfold is401. cbn. by rewrite Hr. }
    set (st1 := Article.set_state id Queued (Article.push (mkItem c id) st)) in *.
    destruct (article_set_state_frame id Queued (Article.push (mkItem c id) st))
      as (F1 & F2 & F3 & F4 & F5 & F6). fold st1 in F1, F2, F3, F4, F5, F6.
    cbn in F1, F2, F3, F4, F5. rewrite Hflag in F1.
    change (Article.dispatched (Article.push (mkItem c id) st))
      with (Article.dispatched st) in F6.
    assert (Hin1 : Forall (fun id => Article.state_of id st1 = Some InFlight) fs.*1).
    { rewrite Forall_forall in Hin |- *. intros j Hj.
      unfold st1. rewrite article_state_of_ne; [by apply Hin|]. by intros ->. }
    destruct (IH st1 F1 H401 Hnd Hin1)
      as (Hf & Hp & Hcb & Hd & Hq & Hpr & Hst & Hother).
    assert (Hd1 : Article.dispatched st1 = Article.dispatched st) by exact F6.
    assert (Hit : Article.itemsFor st1 fs.*1 = Article.itemsFor st fs.*1).
    { unfold Article.itemsFor. by rewrite Hd1. }
    change (Article.run (Article.failures ((id, r) :: fs)) st)
      with (Article.run (Article.failures fs)
              (Article.step (Article.Failure id (Some r)) st)).
    rewrite Hstep. fold st1.
    rewrite (article_itemsFor_cons _ _ _ _ Hc). cbn [sent].
    repeat split.
    + done.
    + by rewrite Hp, F3.
    + by rewrite Hcb, F4.
    + by rewrite Hd.
    + rewrite Hq, Hit, F2. cbn. by rewrite <- app_assoc.
    + cbn. f_equal. by rewrite <- Hit.
    + apply Forall_cons. split; [|done].
      unfold Article.state_of. rewrite Hother; [|done].
      unfold st1.
      by rewrite (article_set_state_lookup_eq id Queued
                    (Article.push (mkItem c id) st) _ Hc).
    + intros j Hj. apply not_elem_of_cons in Hj as [Hne Hj].
      rewrite Hother; [|done]. unfold st1.
      by rewrite article_set_state_lookup_ne.
Qed.

(** X13.  The handler of the article is single-flight: of requests failing
    with 401 one after the other from a lowered flag, the first calls
    [refreshAccessToken] once and the others are appended to the queue in
    their order of arrival, with the descriptors they were sent with. *)
Theorem article_single_flight st leader r followers k :
  Article.isRefreshing st = false →
  status r = 401 →
  Forall (fun f => status f.2 = 401) followers →
  NoDup (leader :: followers.*1) →
  Forall (fun id => Article.state_of id st = Some InFlight) (leader :: followers.*1) →
  let arrived := take k followers in
  let st' := Article.run (Article.failures ((leader, r) :: arrived)) st in
  Article.refreshCalls st' = S (Article.refreshCalls st) ∧
  Article.isRefreshing st' = true ∧
  Article.dispatched st' = Article.dispatched st ∧
  Article.refreshAndRetryQueue st'
  = Article.refreshAndRetryQueue st ++ Article.itemsFor st arrived.*1 ∧
  promise <$> Article.itemsFor st arrived.*1 = arrived.*1 ∧
  Forall (fun id => Article.state_of id st' = Some Queued) arrived.*1.
Proof.
  intros Hflag Hr H401 Hnd Hin arrived st'.
  apply NoDup_cons in Hnd as [Hlead Hnd].
  apply Forall_cons in Hin as [Hlead_in Hin].
  destruct (article_state_of_InFlight _ _ Hlead_in) as (c & o & Hc).
  assert (Hstep : Article.step (Article.Failure leader (Some r)) st
    = Article.set_state leader (AwaitingRefresh c)
        (Article.mkState true (Article.refreshAndRetryQueue st) (Article.calls st)
           (S (Article.refreshCalls st)) (Article.callbacks st))).
  { apply (article_step_leader _ _ o); auto. unfold is401. cbn. by rewrite Hr. }
  set (st0 := Article.mkState true _ _ _ _) in Hstep.
  set (st1 := Article.set_state leader (AwaitingRefresh c) st0) in *.
  destruct (article_set_state_frame leader (AwaitingRefresh c) st0)
    as (F1 & F2 & F3 & F4 & F5 & F6). fold st1 in F1, F2, F3, F4, F5, F6.
  cbn in F1, F2, F3, F4.
  change (Article.dispatched st0) with (Article.dispatched st) in F6.
  assert (Hsub : arrived.*1 ⊆ followers.*1).
  { unfold arrived. rewrite fmap_take. apply subseteq_take. }
  assert (H401' : Forall (fun f => status f.2 = 401) arrived) by (by apply Forall_take).
  assert (Hnd' : NoDup arrived.*1).
  { unfold arrived. rewrite fmap_take.
    eapply sublist_NoDup; [exact Hnd|apply sublist_take]. }
  assert (Hin1 : Forall (fun id => Article.state_of id st1 = Some InFlight) arrived.*1).
  { rewrite Forall_forall in Hin |- *. intros j Hj. unfold st1.
    rewrite article_state_of_ne; [by apply Hin, Hsub|].
    intros ->. by apply Hlead, Hsub. }
  destruct (article_run_followers arrived st1 F1 H401' Hnd' Hin1)
    as (Hf & Hp & Hcb & Hd & Hq & Hpr & Hst & Hother).
  assert (Hit : Article.itemsFor st1 arrived.*1 = Article.itemsFor st arrived.*1).
  { unfold Article.itemsFor. by rewrite F6. }
  change st' with (Article.run (Article.failures arrived)
                     (Article.step (Article.Failure leader (Some r)) st)).
  rewrite Hstep. rewrite Hit in Hq, Hpr.
  split; [by rewrite Hp, F3|]. split; [done|]. split; [by rewrite Hd|].
  split; [by rewrite Hq, F2|]. split; done.
Qed.

Lemma article_single_flight_witness :
  let st' := Article.run (Article.failures [(0, r401); (1, r401); (2, r401)])
               articleThree in
  Article.refreshCalls st' = 1 ∧
  Article.isRefreshing st' = true ∧
  promise <$> Article.refreshAndRetryQueue st' = [1; 2].
Proof.
  destruct (article_single_flight articleThree 0 r401 [(1, r401); (2, r401)] 2)
    as (H1 & H2 & _ & H4 & H5 & _).
  - reflexivity.
  - reflexivity.
  - repeat constructor.
  - compute_done.
  - repeat constructor.
  - split; [exact H1|]. split; [exact H2|].
    etransitivity; [exact (f_equal (fmap (M:=list) promise) H4)|]. exact H5.
Defined.

(** X14.  When the refresh of the article's handler succeeds, the queued
    requests are sent again first, in queue order and with the descriptors
    they were queued with (the new token is written on the leader's
    descriptor only); then the leader's request is sent with Bearer and the
    new token; the queue is empty, the flag down, no callback invoked. *)
Theorem article_refresh_success st leader orig token :
  Article.state_of leader st = Some (AwaitingRefresh orig) →
  let st' := Article.step (Article.Refreshed leader token) st in
  let retried := mkConfig (url orig) (Some ("Bearer " +:+ token)) in
  Article.dispatched st'
  = Article.dispatched st ++
    ((fun item => (QueueReplay (promise item), config item))
       <$> Article.refreshAndRetryQueue st) ++
    [(LeaderRetry leader, retried)] ∧
  Article.refreshAndRetryQueue st' = [] ∧
  Article.isRefreshing st' = false ∧
  Article.refreshCalls st' = Article.refreshCalls st ∧
  Article.callbacks st' = Article.callbacks st ∧
  Article.state_of leader st' = Some (AwaitingRetry retried).
Proof.
  intros Hl st' retried.
  assert (Hlt : leader < length (Article.calls st)).
  { unfold Article.state_of in Hl.
    destruct (Article.calls st !! leader) eqn:E; [|done]. by eapply lookup_lt_Some. }
  unfold st', Article.step. rewrite Hl. unfold Article.onRefreshed.
  fold retried. rewrite article_drain_eq.
  match goal with |- context [Article.set_state leader _ ?s] => set (s1 := s) end.
  destruct (article_set_state_frame leader (AwaitingRetry retried) s1)
    as (F1 & F2 & F3 & F4 & F5 & F6).
  rewrite F1, F2, F3, F4, F6.
  split.
  { unfold s1, Article.dispatched. cbn. rewrite !fmap_app, <- app_assoc.
    by rewrite <- list_fmap_compose. }
  repeat (split; [done|]).
  apply article_state_of_eq. unfold s1. cbn. rewrite !length_app. lia.
Qed.

Lemma article_refresh_success_witness :
  Article.dispatched articleRetry
  = [(Application, reqA1); (Application, reqB1); (Application, reqC1);
     (QueueReplay 1, reqB1); (QueueReplay 2, reqC1);
     (LeaderRetry 0, mkConfig "/api/a" (Some "Bearer T2"))] ∧
  Article.refreshAndRetryQueue articleRetry = [] ∧
  Article.isRefreshing articleRetry = false.
Proof.
  destruct (article_refresh_success articlePending 0 reqA1 "T2")
    as (H1 & H2 & H3 & _).
  - reflexivity.
  - split; [exact H1|]. split; [exact H2|exact H3].
Defined.

Lemma article_settle_leader id c leader cl orig s st :
  Article.calls st !! id = Some (mkCall c (LeaderRetry leader) InFlight) →
  Article.calls st !! leader = Some (mkCall cl Application (AwaitingRetry orig)) →
  Article.settle (length (Article.calls st)) id s st
  = Article.set_state leader (Settled s) (Article.set_state id (Settled s) st).
Proof.
  intros Hc Hl.
  assert (Hne : id ≠ leader) by (intros ->; by rewrite Hc in Hl).
  assert (2 ≤ length (Article.calls st)) as Hlen.
  { apply lookup_lt_Some in Hc, Hl. lia. }
  destruct (length (Article.calls st)) as [|[|n]]; [lia|lia|].
  cbn [Article.settle]. rewrite Hc. cbn [origin].
  rewrite article_state_of_ne by done. unfold Article.state_of. rewrite Hl. cbn.
  rewrite article_set_state_lookup_ne by done. by rewrite Hl.
Qed.

(** X15.  In the article's handler the leader's promise follows its
    resubmission: a response resolves it, a failure other than 401 rejects
    it with that failure; the leader is never queued. *)
Theorem article_leader_follows_retry st id c leader cl orig :
  Article.calls st !! id = Some (mkCall c (LeaderRetry leader) InFlight) →
  Article.calls st !! leader = Some (mkCall cl Application (AwaitingRetry orig)) →
  (∀ r, let st' := Article.step (Article.Response id r) st in
     Article.state_of leader st' = Some (Settled (Resolve r)) ∧
     Article.refreshAndRetryQueue st' = Article.refreshAndRetryQueue st ∧
     Article.isRefreshing st' = Article.isRefreshing st) ∧
  (∀ r, is401 (mkError c r) = false →
     let st' := Article.step (Article.Failure id r) st in
     Article.state_of leader st' = Some (Settled (Reject (mkError c r))) ∧
     Article.refreshAndRetryQueue st' = Article.refreshAndRetryQueue st ∧
     Article.isRefreshing st' = Article.isRefreshing st).
Proof.
  intros Hc Hl.
  assert (Hlt : leader < length (Article.calls st)) by (by eapply lookup_lt_Some).
  assert (Hfin : ∀ s,
    let st' := Article.set_state leader (Settled s)
                 (Article.set_state id (Settled s) st) in
    Article.state_of leader st' = Some (Settled s) ∧
    Article.refreshAndRetryQueue st' = Article.refreshAndRetryQueue st ∧
    Article.isRefreshing st' = Article.isRefreshing st).
  { intros s st'. unfold st'.
    destruct (article_set_state_frame leader (Settled s)
                (Article.set_state id (Settled s) st)) as (F1 & F2 & _).
    destruct (article_set_state_frame id (Settled s) st) as (G1 & G2 & _ & _ & G5 & _).
    split; [apply article_state_of_eq; by rewrite G5|].
    split; congruence. }
  split.
  - intros r st'. unfold st', Article.step, Article.state_of. rewrite Hc. cbn.
    rewrite (article_settle_leader _ _ _ _ _ _ _ Hc Hl). apply Hfin.
  - intros r H401 st'. unfold st', Article.step, Article.onRejected.
    rewrite Hc, H401.
    rewrite (article_settle_leader _ _ _ _ _ _ _ Hc Hl). apply Hfin.
Qed.

Lemma article_leader_follows_retry_witness :
  Article.state_of 0 (Article.step (Article.Response 5 r200) articleRetry)
  = Some (Settled (Resolve r200)) ∧
  Article.state_of 0 (Article.step (Article.Failure 5 (Some r500)) articleRetry)
  = Some (Settled (Reject (mkError (mkConfig "/api/a" (Some "Bearer T2")) (Some r500)))).
Proof.
  destruct (article_leader_follows_retry articleRetry 5
              (mkConfig "/api/a" (Some "Bearer T2")) 0 reqA1
              (mkConfig "/api/a" (Some "Bearer T2"))) as [H1 H2].
  - reflexivity.
  - reflexivity.
  - split.
    + exact (proj1 (H1 r200)).
    + exact (proj1 (H2 (Some r500) eq_refl)).
Defined.

(** X16.  When the refresh of the article's handler fails, the leader's
    promise is rejected with the refresh error and the flag lowered; the
    queue is not drained: the followers stay queued and pending, nothing is
    sent and no callback is invoked. *)
Theorem article_refresh_failure st leader cl orig refreshError :
  Article.calls st !! leader = Some (mkCall cl Application (AwaitingRefresh orig)) →
  let st' := Article.step (Article.RefreshFailed leader refreshError) st in
  Article.state_of leader st' = Some (Settled (Reject refreshError)) ∧
  Article.isRefreshing st' = false ∧
  Article.refreshAndRetryQueue st' = Article.refreshAndRetryQueue st ∧
  Article.dispatched st' = Article.dispatched st ∧
  Article.callbacks st' = Article.callbacks st ∧
  (∀ j, j ≠ leader → Article.state_of j st' = Article.state_of j st).
Proof.
  intros Hl st'.
  assert (Hlt : leader < length (Article.calls st)) by (by eapply lookup_lt_Some).
  set (s1 := Article.set_isRefreshing false st).
  assert (Hstep : st' = Article.settle (length (Article.calls s1)) leader
                          (Reject refreshError) s1).
  { unfold st', Article.step, Article.state_of. by rewrite Hl. }
  assert (Hl1 : Article.calls s1 !! leader
                = Some (mkCall cl Application (AwaitingRefresh orig))) by exact Hl.
  assert (Hs : Article.settle (length (Article.calls s1)) leader
                 (Reject refreshError) s1
               = Article.set_state leader (Settled (Reject refreshError)) s1).
  { destruct (length (Article.calls s1)) eqn:E; [cbn in E; lia|].
    cbn [Article.settle]. by rewrite Hl1. }
  rewrite Hstep, Hs. unfold Article.state_of.
  destruct (article_set_state_frame leader (Settled (Reject refreshError)) s1)
    as (F1 & F2 & F3 & F4 & F5 & F6).
  split; [by rewrite (article_set_state_lookup_eq _ _ _ _ Hl1)|].
  split; [by rewrite F1|]. split; [by rewrite F2|]. split; [by rewrite F6|].
  split; [by rewrite F4|].
  intros j Hj. by rewrite article_set_state_lookup_ne.
Qed.

Lemma article_refresh_failure_witness :
  let st' := Article.step (Article.RefreshFailed 0 refreshError) articlePending in
  Article.state_of 0 st' = Some (Settled (Reject refreshError)) ∧
  Article.isRefreshing st' = false ∧
  promise <$> Article.refreshAndRetryQueue st' = [1; 2] ∧
  Article.state_of 1 st' = Some Queued ∧
  Article.state_of 2 st' = Some Queued.
Proof.
  destruct (article_refresh_failure articlePending 0 reqA1 reqA1 refreshError)
    as (H1 & H2 & H3 & _ & _ & H6).
  - reflexivity.
  - split; [exact H1|]. split; [exact H2|].
    split; [exact (f_equal (fmap (M:=list) promise) H3)|].
    split; [exact (H6 1 ltac:(lia))|exact (H6 2 ltac:(lia))].
Defined.

(** ** The first handler of the article: what it does *)

Lemma simple_set_state_frame id s st :
  Simple.refreshCalls (Simple.set_state id s st) = Simple.refreshCalls st ∧
  length (Simple.calls (Simple.set_state id s st)) = length (Simple.calls st).
Proof.
  unfold Simple.set_state. destruct (Simple.calls st !! id); [|done].
  cbn. by rewrite length_insert.
Qed.

Lemma simple_set_state_lookup_ne id j s st :
  id ≠ j → Simple.calls (Simple.set_state id s st) !! j = Simple.calls st !! j.
Proof.
  intros Hne. unfold Simple.set_state.
  destruct (Simple.calls st !! id); [|done]. cbn. by rewrite list_lookup_insert_ne.
Qed.

Lemma simple_set_state_lookup_eq id s st c :
  Simple.calls st !! id = Some c →
  Simple.calls (Simple.set_state id s st) !! id = Some (mkCall (sent c) (origin c) s).
Proof.
  intros Hc. unfold Simple.set_state. rewrite Hc. cbn.
  apply list_lookup_insert_eq. by eapply lookup_lt_Some.
Qed.

Lemma simple_step_401 id c o r st :
  Simple.calls st !! id = Some (mkCall c o InFlight) →
  status r = 401 →
  Simple.step (Simple.Failure id (Some r)) st
  = Simple.set_state id (AwaitingRefresh c)
      (Simple.mkState (Simple.calls st) (S (Simple.refreshCalls st))).
Proof.
  intros Hc Hr. unfold Simple.step, Simple.onRejected, is401. rewrite Hc. cbn.
  by rewrite Hr.
Qed.

(** X17.  The first handler of the article shares nothing between
    requests: each of N requests failing with 401 calls
    [refreshAccessToken] itself, N calls in all, and waits for its own. *)
Theorem simple_refresh_per_failure fs : ∀ st,
  Forall (fun f => status f.2 = 401) fs →
  NoDup fs.*1 →
  Forall (fun id => Simple.state_of id st = Some InFlight) fs.*1 →
  let st' := Simple.run (Simple.failures fs) st in
  Simple.refreshCalls st' = Simple.refreshCalls st + length fs ∧
  Forall (fun id => ∃ c, Simple.state_of id st' = Some (AwaitingRefresh c)) fs.*1 ∧
  (∀ j, j ∉ fs.*1 → Simple.calls st' !! j = Simple.calls st !! j).
Proof.
  induction fs as [|[id r] fs IH]; intros st H401 Hnd Hin.
  - cbn. split; [lia|]. split; [constructor|done].
  - cbn [fmap list_fmap fst snd] in *.
    fold (fmap (M:=list) (@fst nat AxiosResponse)) in *.
    apply Forall_cons in H401 as [Hr H401]. cbn in Hr.
    apply NoDup_cons in Hnd as [Hid Hnd].
    apply Forall_cons in Hin as [Hid_in Hin].
    unfold Simple.state_of in Hid_in.
    destruct (Simple.calls st !! id) as [[c o s]|] eqn:Hc; [|done].
    cbn in Hid_in. injection Hid_in as ->.
    pose proof (simple_step_401 _ _ _ _ _ Hc Hr) as Hstep.
    set (st0 := Simple.mkState (Simple.calls st) (S (Simple.refreshCalls st))) in *.
    set (st1 := Simple.set_state id (AwaitingRefresh c) st0) in *.
    assert (Hin1 : Forall (fun id => Simple.state_of id st1 = Some InFlight) fs.*1).
    { rewrite Forall_forall in Hin |- *. intros j Hj. unfold Simple.state_of, st1.
      rewrite simple_set_state_lookup_ne; [by apply Hin|]. by intros ->. }
    destruct (IH st1 H401 Hnd Hin1) as (Hn & Hst & Hother).
    change (Simple.run (Simple.failures ((id, r) :: fs)) st)
      with (Simple.run (Simple.failures fs)
              (Simple.step (Simple.Failure id (Some r)) st)).
    rewrite Hstep. split; [|split].
    + rewrite Hn. unfold st1.
      rewrite (proj1 (simple_set_state_frame _ _ _)). cbn. lia.
    + apply Forall_cons. split; [|done]. exists c.
      unfold Simple.state_of. rewrite Hother by done. unfold st1.
      by rewrite (simple_set_state_lookup_eq id (AwaitingRefresh c) st0 _ Hc).
    + intros j Hj. apply not_elem_of_cons in Hj as [Hne Hj].
      rewrite Hother by done. unfold st1.
      by rewrite simple_set_state_lookup_ne.
Qed.

Lemma simple_refresh_per_failure_witness :
  Simple.refreshCalls
    (Simple.run (Simple.failures [(0, r401); (1, r401); (2, r401)]) simpleThree) = 3.
Proof.
  destruct (simple_refresh_per_failure [(0, r401); (1, r401); (2, r401)] simpleThree)
    as (H1 & _ & _).
  - repeat constructor.
  - compute_done.
  - repeat constructor.
  - exact H1.
Defined.

(** X18.  In the first handler of the article a successful refresh sends
    the request again with Bearer and the new token, and the caller's
    promise follows that resubmission (resolved by a response, rejected by
    a failure other than 401); a 401 on the resubmission refreshes once
    more; a failed refresh rejects the caller with the refresh error. *)
Theorem simple_retry_settles_caller st id orig cl token :
  Simple.calls st !! id = Some (mkCall cl Application (AwaitingRefresh orig)) →
  let retried := mkConfig (url orig) (Some ("Bearer " +:+ token)) in
  let retry := length (Simple.calls st) in
  let st1 := Simple.step (Simple.Refreshed id token) st in
  Simple.calls st1 !! retry = Some (mkCall retried (LeaderRetry id) InFlight) ∧
  Simple.refreshCalls st1 = Simple.refreshCalls st ∧
  (∀ r, Simple.state_of id (Simple.step (Simple.Response retry r) st1)
        = Some (Settled (Resolve r))) ∧
  (∀ r, is401 (mkError retried r) = false →
        Simple.state_of id (Simple.step (Simple.Failure retry r) st1)
        = Some (Settled (Reject (mkError retried r)))) ∧
  (∀ r, is401 (mkError retried r) = true →
        let st2 := Simple.step (Simple.Failure retry r) st1 in
        Simple.refreshCalls st2 = S (Simple.refreshCalls st) ∧
        Simple.state_of retry st2 = Some (AwaitingRefresh retried) ∧
        Simple.state_of id st2 = Some (AwaitingRetry retried)) ∧
  (∀ e, Simple.state_of id (Simple.step (Simple.RefreshFailed id e) st)
        = Some (Settled (Reject e))).
Proof.
  intros Hl retried retry st1.
  assert (Hlt : id < length (Simple.calls st)) by (by eapply lookup_lt_Some).
  assert (Hst1 : st1 = Simple.set_state id (AwaitingRetry retried)
                         (Simple.axiosInstance (LeaderRetry id) retried st)).
  { unfold st1, Simple.step, Simple.state_of. by rewrite Hl. }
  set (s0 := Simple.axiosInstance (LeaderRetry id) retried st) in *.
  assert (Hl0 : Simple.calls s0 !! id
                = Some (mkCall cl Application (AwaitingRefresh orig))).
  { unfold s0. cbn. by rewrite lookup_app_l. }
  assert (Hretry : Simple.calls st1 !! retry
                   = Some (mkCall retried (LeaderRetry id) InFlight)).
  { rewrite Hst1. rewrite simple_set_state_lookup_ne by (unfold retry; lia).
    unfold s0. cbn. rewrite lookup_app_r by (unfold retry; lia).
    unfold retry. by rewrite Nat.sub_diag. }
  assert (Hcaller : Simple.calls st1 !! id
                    = Some (mkCall cl Application (AwaitingRetry retried))).
  { rewrite Hst1. by rewrite (simple_set_state_lookup_eq _ _ _ _ Hl0). }
  assert (Hne : retry ≠ id) by (unfold retry; lia).
  assert (Hsettle : ∀ s,
    Simple.state_of id (Simple.settle (length (Simple.calls st1)) retry s st1)
    = Some (Settled s)).
  { intros s.
    assert (2 ≤ length (Simple.calls st1)) as Hlen.
    { apply lookup_lt_Some in Hretry, Hcaller. lia. }
    destruct (length (Simple.calls st1)) as [|[|n]]; [lia|lia|].
    cbn [Simple.settle]. rewrite Hretry. cbn [origin].
    set (s2 := Simple.set_state retry (Settled s) st1).
    assert (Hc2 : Simple.calls s2 !! id
                  = Some (mkCall cl Application (AwaitingRetry retried))).
    { unfold s2. by rewrite simple_set_state_lookup_ne. }
    unfold Simple.state_of at 2. rewrite Hc2. cbn.
    unfold Simple.state_of.
    by rewrite (simple_set_state_lookup_eq _ _ _ _ Hc2). }
  assert (Hrc : Simple.refreshCalls st1 = Simple.refreshCalls st).
  { rewrite Hst1. by rewrite (proj1 (simple_set_state_frame _ _ _)). }
  split; [done|]. split; [done|].
  split; [|split; [|split]].
  - intros r. unfold Simple.step at 1. unfold Simple.state_of at 2.
    rewrite Hretry. cbn. apply Hsettle.
  - intros r H401. unfold Simple.step at 1, Simple.onRejected.
    rewrite Hretry, H401. apply Hsettle.
  - intros r H401 st2.
    assert (Hstep2 : st2 = Simple.set_state retry (AwaitingRefresh retried)
                             (Simple.mkState (Simple.calls st1)
                                (S (Simple.refreshCalls st1)))).
    { unfold st2, Simple.step, Simple.onRejected. by rewrite Hretry, H401. }
    rewrite Hstep2. split; [|split].
    + rewrite (proj1 (simple_set_state_frame _ _ _)).
      cbn [Simple.refreshCalls]. by rewrite Hrc.
    + unfold Simple.state_of.
      by rewrite (simple_set_state_lookup_eq retry _
                    (Simple.mkState (Simple.calls st1) _) _ Hretry).
    + unfold Simple.state_of. rewrite simple_set_state_lookup_ne by done.
      cbn [Simple.calls]. by rewrite Hcaller.
  - intros e. unfold Simple.step, Simple.state_of at 2. rewrite Hl. cbn.
    destruct (length (Simple.calls st)) eqn:E; [lia|].
    cbn [Simple.settle]. rewrite Hl. cbn. unfold Simple.state_of.
    by rewrite (simple_set_state_lookup_eq _ _ _ _ Hl).
Qed.

Lemma simple_retry_settles_caller_witness :
  Simple.calls simpleRetry !! 3
  = Some (mkCall (mkConfig "/api/a" (Some "Bearer T2")) (LeaderRetry 0) InFlight) ∧
  Simple.state_of 0 (Simple.step (Simple.Response 3 r200) simpleRetry)
  = Some (Settled (Resolve r200)).
Proof.
  destruct (simple_retry_settles_caller
              (Simple.step (Simple.Failure 0 (Some r401)) simpleThree) 0
              (mkConfig "/api/a" (Some "Bearer T1"))
              (mkConfig "/api/a" (Some "Bearer T1")) "T2") as (H1 & _ & H3 & _).
  - reflexivity.
  - split; [exact H1|exact (H3 r200)].
Defined.
